(** * gameboy-dumper: the serial client [client/client.py]

    A shallow embedding of the client of the cartridge reader/writer:
    the header model ([CartridgeHeader]), the size computations of [main],
    and the two bulk transfers [dump] and [flash] over a serial transport.

    Conventions of the embedding.
    - A Python [bytes] value is a [list byte]; indexing it yields an [int],
      here a [Z] in [0, 256).
    - A Python slice [d[lo:hi]] never fails: it is clamped to the length of
      [d].  Indexing [d[i]] raises [IndexError] out of range.
    - An exception that escapes a function is a value [Raise e] of [result].
    - The serial port is an interface ([Transport]); every call made on it
      is recorded, in program order, in a log of [event]s.
    - [print] calls are not modelled. *)

From Stdlib Require Import ZArith Lia.
From Stdlib.Strings Require Import Byte Ascii String.
From stdpp Require Import base option list gmap.

Local Open Scope Z_scope.

(** ** Python values and exceptions *)

Inductive exn : Type :=
| IndexError          (* [d[i]] out of range *)
| ValueError          (* [bytearray.index] of an absent value *)
| UnicodeDecodeError  (* [bytes.decode("ascii")] of a byte above 0x7F *)
| AssertionError.     (* a failed [assert] *)

Inductive result (A : Type) : Type :=
| Ok (a : A)
| Raise (e : exn).
Arguments Ok {A} a.
Arguments Raise {A} e.

Definition is_ok {A} (r : result A) : bool :=
  match r with Ok _ => true | Raise _ => false end.

(** Sequencing stops at the first exception. *)
#[global] Instance result_ret : MRet result := fun _ a => Ok a.
#[global] Instance result_bind : MBind result := fun _ _ k r =>
  match r with
  | Ok a => k a
  | Raise e => Raise e
  end.

Definition byte_to_Z (b : byte) : Z := Z.of_N (Byte.to_N b).

(** [d[lo:hi]] for [0 <= lo <= hi]. *)
Definition slice {A} (lo hi : nat) (d : list A) : list A :=
  take (hi - lo) (drop lo d).

(** [d[i]] on a [bytes] value. *)
Definition getitem (d : list byte) (i : nat) : result Z :=
  match d !! i with
  | Some b => Ok (byte_to_Z b)
  | None => Raise IndexError
  end.

(** [b"\0" in data]. *)
Definition contains_zero (data : list byte) : bool :=
  existsb (Byte.eqb x00) data.

(** [bytearray(data).index(0)]. *)
Fixpoint index_zero (data : list byte) : result nat :=
  match data with
  | [] => Raise ValueError
  | b :: rest =>
      if Byte.eqb x00 b then Ok 0%nat
      else k ← index_zero rest; Ok (S k)
  end.

(** [data.decode("ascii")]. *)
Definition is_ascii (b : byte) : bool := (byte_to_Z b <? 128).

Definition decode_ascii (data : list byte) : result string :=
  if forallb is_ascii data then Ok (string_of_list_byte data)
  else Raise UnicodeDecodeError.

(** ** CartridgeHeader *)

Record CartridgeHeader : Type := mkCartridgeHeader {
  data : list byte;
  nintendo_logo : list byte;
  title : string;
  cart_type : Z;
  rom_size : Z;
  ram_size : Z;
  hdr_cksm : Z
}.

(** [CartridgeHeader.__extract_title]. *)
Definition extract_title (data : list byte) : result string :=
  let title_end := 15%nat in
  title_end ← (if contains_zero data then index_zero data else Ok title_end);
  decode_ascii (take title_end data).

(** [CartridgeHeader.__init__]: the fields are computed in source order, so
    the first failing statement decides the exception. *)
Definition CartridgeHeader_init (hdrdata : list byte) : result CartridgeHeader :=
  let nintendo_logo := slice 0x4 0x34 hdrdata in
  title ← extract_title (slice 0x34 0x44 hdrdata);
  cart_type ← getitem hdrdata 0x47;
  rom_size ← getitem hdrdata 0x48;
  ram_size ← getitem hdrdata 0x49;
  hdr_cksm ← getitem hdrdata 0x4D;
  Ok (mkCartridgeHeader hdrdata nintendo_logo title
                        cart_type rom_size ram_size hdr_cksm).

(** [CartridgeHeader.valid]. *)
Definition valid (self : CartridgeHeader) : bool :=
  let x := fold_left (fun x b => (x - byte_to_Z b - 1) mod 256)
                     (slice 0x34 0x4D (data self)) 0 in
  x =? hdr_cksm self.

(** ** The serial transport and the log of calls made on it *)

(** What the client needs of [serial.Serial]: [read(size)] returns the bytes
    received and [write(data)] the number of bytes written.  Both are total
    here: a call that never returns is outside the model. *)
Class Transport (S : Type) : Type := {
  ser_read : nat -> S -> list byte * S;
  ser_write : list byte -> S -> Z * S
}.

Inductive event : Type :=
| EvRead (size : nat) (got : list byte)          (* [ser.read(size)] *)
| EvWrite (sent : list byte) (written : Z)       (* [ser.write(sent)] *)
| EvWriteBytes (path : string) (content : list byte). (* [Path.write_bytes] *)

Record world (S : Type) : Type := mkWorld {
  port : S;
  log : list event
}.
Arguments mkWorld {S} port log.
Arguments port {S} w.
Arguments log {S} w.

(** A command runs in a world and ends in a world, with a value or with an
    exception; the world reached when an exception is raised is kept. *)
Definition io (S A : Type) : Type := world S -> result A * world S.

#[global] Instance io_ret {S} : MRet (io S) := fun _ a w => (Ok a, w).
#[global] Instance io_bind {S} : MBind (io S) := fun _ _ k m w =>
  match m w with
  | (Ok a, w') => k a w'
  | (Raise e, w') => (Raise e, w')
  end.

Definition emit {S} (ev : event) (w : world S) (p : S) : world S :=
  mkWorld p (log w ++ [ev]).

Section Client.
Context {Ser : Type} `{Transport Ser}.

Definition read (size : nat) : io Ser (list byte) := fun w =>
  let '(got, p) := ser_read size (port w) in
  (Ok got, emit (EvRead size got) w p).

Definition write (sent : list byte) : io Ser Z := fun w =>
  let '(written, p) := ser_write sent (port w) in
  (Ok written, emit (EvWrite sent written) w p).

Definition write_bytes (path : string) (content : list byte) : io Ser unit :=
  fun w => (Ok tt, emit (EvWriteBytes path content) w (port w)).

Definition assert_ (b : bool) : io Ser unit := fun w =>
  if b then (Ok tt, w) else (Raise AssertionError, w).

(** [for i in xs: body(i)]. *)
Fixpoint for_ (xs : list nat) (body : nat -> io Ser unit) : io Ser unit :=
  match xs with
  | [] => mret tt
  | i :: rest => body i ≫= λ _, for_ rest body
  end.

(** [range(n)] for a Python [int]: empty when [n <= 0]. *)
Definition range (n : Z) : list nat := seq 0 (Z.to_nat n).

(** The loop of [dump], with its accumulator [dump_]. *)
Fixpoint dump_loop (xs : list nat) (dump_ : list byte) : io Ser (list byte) :=
  match xs with
  | [] => mret dump_
  | _ :: rest => read 512 ≫= λ block, dump_loop rest (dump_ ++ block)
  end.

Definition dump (title : string) (num_blocks : Z) : io Ser unit :=
  dump_loop (range num_blocks) [] ≫= λ dump_, write_bytes title dump_.

(** The body of the inner loop of [flash]: one chunk. *)
Definition flash_chunk (bank : list byte) (j : nat) : io Ser unit :=
  let chunk := slice (j * 32) ((j + 1) * 32) bank in
  write chunk ≫= λ written,
  assert_ (written =? 32) ≫= λ _,
  read 1 ≫= λ _, mret tt.

(** The body of the outer loop of [flash]: one bank. *)
Definition flash_bank (data : list byte) (i : nat) : io Ser unit :=
  let bank := slice (i * 0x2000) ((i + 1) * 0x2000) data in
  for_ (seq 0 256) (flash_chunk bank) ≫= λ _,
  read 1 ≫= λ _, mret tt.

Definition flash (data : list byte) (num_banks : Z) : io Ser unit :=
  for_ (range num_banks) (flash_bank data).
End Client.

(** ** The size computations of [main] *)

Module Main.
(** [{2: 1, 3: 4, 4: 16, 5: 8}] *)
Definition ram_banks : gmap Z Z := {[ 2 := 1; 3 := 4; 4 := 16; 5 := 8 ]}.

(** [d.get(key, dflt)] *)
Definition dict_get (d : gmap Z Z) (key dflt : Z) : Z := default dflt (d !! key).

(** [--dumprom]: [num_blocks = 32 * (2 << header.rom_size)] *)
Definition dumprom_num_blocks (header : CartridgeHeader) : Z :=
  32 * Z.shiftl 2 (rom_size header).

(** [--dumpram]: the table entry, then [num_blocks *= 16] *)
Definition dumpram_num_blocks (header : CartridgeHeader) : Z :=
  let num_blocks := dict_get ram_banks (ram_size header) 0 in
  num_blocks * 16.

(** [--flashram]: the table entry, passed to [flash] as [num_banks] *)
Definition flashram_num_blocks (header : CartridgeHeader) : Z :=
  dict_get ram_banks (ram_size header) 0.
End Main.

(** ** A transport to run the client against

    [rx] holds the bytes the device has sent and the client has not read yet;
    a read returns what is there, up to [size] bytes.  A write is accepted
    up to [room] bytes and what is accepted is appended to [tx]. *)

Record mock : Type := mkMock {
  rx : list byte;
  tx : list byte;
  room : nat
}.

#[global] Instance mock_transport : Transport mock := {
  ser_read size m := (take size (rx m), mkMock (drop size (rx m)) (tx m) (room m));
  ser_write sent m :=
    let n := Nat.min (length sent) (room m) in
    (Z.of_nat n, mkMock (rx m) (tx m ++ take n sent) (room m))
}.

(** A transport never accepts more bytes than it is given. *)
Definition honest (S : Type) `{Transport S} : Prop :=
  forall sent p, fst (ser_write sent p) <= Z.of_nat (length sent).

(** ** The header as the specification words it *)

(** The byte at an absolute offset of the buffer, as a number. *)
Definition byte_at (buf : list byte) (off : nat) : Z :=
  byte_to_Z (nth off buf x00).

(** The running value after the first [n] bytes from offset 0x34:
    start at 0 and apply [x = (x - b - 1) mod 256] to each byte in turn. *)
Fixpoint rolling_checksum (buf : list byte) (n : nat) : Z :=
  match n with
  | O => 0
  | S k => (rolling_checksum buf k - byte_at buf (0x34 + k) - 1) mod 256
  end.

(** The first zero byte of [field] is at relative offset [k]. *)
Definition first_zero_at (field : list byte) (k : nat) : Prop :=
  field !! k = Some x00 /\ forall j, (j < k)%nat -> field !! j <> Some x00.

(** ** Headers used as concrete inputs *)

(** All zero but for the checksum byte, 0xE7 = (-25) mod 256. *)
Definition hdr_blank : list byte :=
  replicate 0x4D x00 ++ [xe7] ++ replicate 2 x00.

(** Sixteen letters [A] in the title field, no terminator. *)
Definition hdr_full_title : list byte :=
  replicate 0x34 x00 ++ replicate 16 x41 ++ replicate 12 x00.

(** The title [ZELDA], zero padded; type 3, ROM code 5, RAM code 2 and the
    matching checksum 0x6D. *)
Definition hdr_zelda : list byte :=
  replicate 0x34 x00 ++ [x5a; x45; x4c; x44; x41] ++ replicate 14 x00
  ++ [x03; x05; x02] ++ replicate 3 x00 ++ [x6d] ++ replicate 2 x00.

(** ** Reading the log of a transfer *)

(** What [n] successive [ser.read(512)] calls return, and the port after. *)
Fixpoint ser_reads {S : Type} `{Transport S} (n : nat) (p : S)
  : list (list byte) * S :=
  match n with
  | O => ([], p)
  | S k =>
      let '(block, p1) := ser_read 512 p in
      let '(blocks, p2) := ser_reads k p1 in
      (block :: blocks, p2)
  end.

(** The kind of a call, forgetting the bytes exchanged. *)
Inductive op : Type :=
| OpWrite
| OpRead (size : nat)
| OpFile.

Definition op_of (ev : event) : op :=
  match ev with
  | EvRead size _ => OpRead size
  | EvWrite _ _ => OpWrite
  | EvWriteBytes _ _ => OpFile
  end.

Definition ops (t : list event) : list op := op_of <$> t.

(** [k] chunks, each a write followed by its synchronizing read. *)
Definition chunk_ops (k : nat) : list op :=
  concat (replicate k [OpWrite; OpRead 1]).

(** One bank: 256 acknowledged chunks, then the read that waits for the
    bank to be committed. *)
Definition bank_ops : list op := chunk_ops 256 ++ [OpRead 1].

Definition flash_ops (num_banks : nat) : list op :=
  concat (replicate num_banks bank_ops).

(** The transport took the whole chunk. *)
Definition accepted (ev : event) : Prop :=
  match ev with
  | EvWrite _ written => written = 32
  | _ => True
  end.

(** A run that stopped on a write the transport did not take whole, after
    the calls [before]. *)
Definition aborted (t : list event) (before : list op) : Prop :=
  exists t0 sent written,
    t = t0 ++ [EvWrite sent written]
    /\ written <> 32
    /\ ops t0 = before
    /\ Forall accepted t0.

(** The bytes handed to [ser.write], in order. *)
Definition sent_bytes (t : list event) : list byte :=
  concat (omap (fun ev => match ev with
                          | EvWrite sent _ => Some sent
                          | _ => None
                          end) t).

(** How a run of a loop of [flash] ended, read off the calls [t] it made:
    normally, having made the calls [full], every write taken whole; or on
    the failed [assert], after calls allowed by [partial]. *)
Definition outcome (r : result unit) (t : list event)
           (full : list op) (partial : list op -> Prop) : Prop :=
  match r with
  | Ok _ => ops t = full /\ Forall accepted t
  | Raise e =>
      e = AssertionError /\ exists before, partial before /\ aborted t before
  end.

(** Stop-and-wait: a write is the last call made, or the next call is a
    one-byte read. *)
Fixpoint stop_and_wait (l : list op) : bool :=
  match l with
  | [] => true
  | OpWrite :: rest =>
      match rest with
      | [] => true
      | OpRead 1 :: _ => stop_and_wait rest
      | _ => false
      end
  | _ :: rest => stop_and_wait rest
  end.

(** ** The program [main]

    [args] is the namespace that [parser.parse_args()] returns: an option
    absent from the command line is [None], and [--dumprom] or [--dumpram]
    given without a value is ["c"].  [read_bytes] is what
    [Path(file_name).read_bytes()] returns when it is called; a read that
    raises is outside the model, and so are [time.sleep] and the opening of
    the port.  [exit(0)] ends the run normally. *)

Record Args : Type := mkArgs {
  dumprom : option string;
  dumpram : option string;
  flashram : option string
}.

(** The truth value of [args.x] in [if args.x] and [not args.x]: [None] and
    the empty string are false. *)
Definition truthy (arg : option string) : bool :=
  match arg with
  | None => false
  | Some s => negb (String.eqb s "")
  end.

Section Program.
Context {Ser : Type} `{Transport Ser}.

(** A value or an exception computed without the transport. *)
Definition eval {A} (r : result A) : io Ser A := fun w => (r, w).

(** [if args.x: body], with the value of [args.x] at hand in the body. *)
Definition when_given (arg : option string) (body : string -> io Ser unit)
  : io Ser unit :=
  match arg with
  | Some s => if truthy arg then body s else mret tt
  | None => mret tt
  end.

Definition main_dumprom (header : CartridgeHeader) (arg : string) : io Ser unit :=
  let num_blocks := 32 * Z.shiftl 2 (rom_size header) in
  let file_name :=
    if String.eqb arg "c" then String.append (title header) ".rom" else arg in
  write [xca; x01] ≫= λ _,
  dump file_name num_blocks.

Definition main_dumpram (header : CartridgeHeader) (arg : string) : io Ser unit :=
  let num_blocks := Main.dict_get Main.ram_banks (ram_size header) 0 in
  let num_blocks := num_blocks * 16 in
  let file_name :=
    if String.eqb arg "c" then String.append (title header) ".ram" else arg in
  write [xca; x02] ≫= λ _,
  dump file_name num_blocks.

Definition main_flashram (read_bytes : string -> list byte)
           (header : CartridgeHeader) (arg : string) : io Ser unit :=
  let num_blocks := Main.dict_get Main.ram_banks (ram_size header) 0 in
  let file_name := arg in
  let data := read_bytes file_name in
  write [xca; x04] ≫= λ _,
  flash data num_blocks.

Definition main (args : Args) (read_bytes : string -> list byte) : io Ser unit :=
  write [xca; x00] ≫= λ _,
  read 80 ≫= λ hdrdata,
  eval (CartridgeHeader_init hdrdata) ≫= λ header,
  let _ := valid header in
  if negb (truthy (dumprom args)) && negb (truthy (dumpram args))
     && negb (truthy (flashram args))
  then mret tt
  else
    when_given (dumprom args) (main_dumprom header) ≫= λ _,
    when_given (dumpram args) (main_dumpram header) ≫= λ _,
    when_given (flashram args) (main_flashram read_bytes header).
End Program.

(** ** Reading the log of [main] *)

Section Handshake.
Context {Ser : Type} `{Transport Ser}.

(** What the device answers to the handshake [0xCA 0x00]. *)
Definition answer (w : world Ser) : list byte :=
  (ser_read 80 (ser_write [xca; x00] (port w)).2).1.

(** The world once the handshake is done: one write, one read of 80. *)
Definition handshake (w : world Ser) : world Ser :=
  let sent := ser_write [xca; x00] (port w) in
  let got := ser_read 80 sent.2 in
  mkWorld got.2 (log w ++ [EvWrite [xca; x00] sent.1; EvRead 80 got.1]).
End Handshake.

(** The file a dump goes to: the value of the option, or the default name
    when that value is ["c"]. *)
Definition dump_file_name (arg : option string) (default_name : string) : string :=
  if String.eqb (default ""%string arg) "c" then default_name
  else default ""%string arg.

(** The calls of a dump phase of [main]: none when the option is not given;
    otherwise the command, [num_blocks] reads of 512 bytes and the file. *)
Definition dump_phase (cmd : list byte) (arg : option string)
           (default_name : string) (num_blocks : Z) (t : list event) : Prop :=
  if truthy arg then
    exists written blocks,
      t = EvWrite cmd written :: (EvRead 512 <$> blocks)
          ++ [EvWriteBytes (dump_file_name arg default_name) (concat blocks)]
      /\ length blocks = Z.to_nat num_blocks
  else t = [].

(** The calls of the flash phase of [main]: none when the option is not
    given; otherwise the command and a run of [flash], complete or not. *)
Definition flash_phase (arg : option string) (data : list byte)
           (num_banks : Z) (t : list event) : Prop :=
  if truthy arg then
    exists written t',
      t = EvWrite [xca; x04] written :: t'
      /\ ops t' `prefix_of` flash_ops (Z.to_nat num_banks)
      /\ sent_bytes t' `prefix_of` data
  else t = [].

(** ** More vocabulary for the properties *)

(** The sum of the bytes of [l], as numbers. *)
Definition byte_sum (l : list byte) : Z :=
  foldr (fun b acc => byte_to_Z b + acc) 0 l.

(** A transport that takes a 32-byte chunk whole. *)
Definition accepting (S : Type) `{Transport S} : Prop :=
  forall sent p, length sent = 32%nat -> fst (ser_write sent p) = 32.

(** A transport whose reads return as many bytes as asked for, as a serial
    port opened without timeout does. *)
Definition blocking (S : Type) `{Transport S} : Prop :=
  forall size p, length (fst (ser_read size p)) = size.

(** A device that answers every read with zero bytes and takes every write
    whole. *)
#[global] Instance zero_device : Transport unit := {
  ser_read size _ := (replicate size x00, tt);
  ser_write sent _ := (Z.of_nat (length sent), tt)
}.

(** ** The chunks of a payload *)

(** The payloads handed to [ser.write], one per call, in order. *)
Definition writes (t : list event) : list (list byte) :=
  omap (fun ev => match ev with
                  | EvWrite sent _ => Some sent
                  | _ => None
                  end) t.

(** The [m]-th run of 32 bytes of [data], cut short where [data] ends:
    [data[32 * m : 32 * m + 32]]. *)
Definition chunk_at (data : list byte) (m : nat) : list byte :=
  take 32 (drop (32 * m) data).

(** What a write reports when the transport reports no more bytes than it
    was given and takes a chunk of 32 bytes whole. *)
Definition faithful (ev : event) : Prop :=
  match ev with
  | EvWrite sent written =>
      written <= Z.of_nat (length sent)
      /\ (length sent = 32%nat -> written = 32)
  | _ => True
  end.

(** * Properties of the header model *)

Ltac unfold_bind :=
  unfold mbind, mret, result_bind, result_ret, io_bind, io_ret in *.

Lemma byte_to_Z_range (b : byte) : 0 <= byte_to_Z b < 256.
Proof.
  unfold byte_to_Z. pose proof (Byte.to_N_bounded b). lia.
Qed.

Lemma slice_length {A} (lo hi : nat) (d : list A) :
  (hi <= length d)%nat -> length (slice lo hi d) = (hi - lo)%nat.
Proof.
  intros Hhi. unfold slice. rewrite length_take, length_drop. lia.
Qed.

Lemma getitem_Ok (d : list byte) (i : nat) (v : Z) :
  getitem d i = Ok v -> (i < length d)%nat /\ v = byte_at d i.
Proof.
  unfold getitem, byte_at. destruct (d !! i) as [b|] eqn:Hb; [|discriminate].
  intros [= <-]. split.
  - eapply lookup_lt_Some; eauto.
  - f_equal. symmetry. apply nth_lookup_Some with (d := x00) in Hb. exact Hb.
Qed.

Lemma getitem_Raise (d : list byte) (i : nat) (e : exn) :
  getitem d i = Raise e -> (length d <= i)%nat /\ e = IndexError.
Proof.
  unfold getitem. destruct (d !! i) as [b|] eqn:Hb; [discriminate|].
  intros [= <-]. split; [|reflexivity]. by apply lookup_ge_None.
Qed.

Lemma contains_zero_true (field : list byte) :
  contains_zero field = true <-> x00 ∈ field.
Proof.
  unfold contains_zero. rewrite existsb_exists. split.
  - intros (b & Hin & Heq). apply Byte.byte_dec_bl in Heq. subst b.
    by apply list_elem_of_In.
  - intros Hin. exists x00. split; [by apply list_elem_of_In | reflexivity].
Qed.

Lemma index_zero_Ok (field : list byte) (k : nat) :
  index_zero field = Ok k -> first_zero_at field k.
Proof.
  revert k. induction field as [|b rest IH]; intros k; simpl; [discriminate|].
  destruct (Byte.eqb x00 b) eqn:Hb.
  - intros [= <-]. apply Byte.byte_dec_bl in Hb. subst b.
    split; [reflexivity | intros j Hj; lia].
  - unfold_bind. destruct (index_zero rest) as [k'|] eqn:Hrest; [|discriminate].
    intros [= <-]. destruct (IH k' eq_refl) as [Hk Hbefore]. split; [exact Hk|].
    intros [|j] Hj; simpl.
    + intros [= ->]. by rewrite (Byte.byte_dec_lb (eq_refl x00)) in Hb.
    + apply Hbefore. lia.
Qed.

Lemma index_zero_found (field : list byte) :
  x00 ∈ field -> exists k, index_zero field = Ok k.
Proof.
  induction field as [|b rest IH]; intros Hin; [by apply elem_of_nil in Hin|].
  simpl. destruct (Byte.eqb x00 b) eqn:Hb; [by eexists|].
  apply elem_of_cons in Hin as [<-|Hin];
    [by rewrite (Byte.byte_dec_lb (eq_refl x00)) in Hb|].
  destruct (IH Hin) as [k ->]. by eexists.
Qed.

Lemma first_zero_at_unique (field : list byte) (k k' : nat) :
  first_zero_at field k -> first_zero_at field k' -> k = k'.
Proof.
  intros [Hk Hlt] [Hk' Hlt'].
  destruct (Nat.lt_trichotomy k k') as [Hc|[Hc|Hc]]; [|exact Hc|].
  - exfalso. by apply (Hlt' k).
  - exfalso. by apply (Hlt k').
Qed.

Lemma string_of_list_byte_length (l : list byte) :
  String.length (string_of_list_byte l) = length l.
Proof.
  unfold string_of_list_byte.
  induction l as [|b l IH]; [reflexivity|].
  cbn [List.map string_of_list_ascii String.length length]. by f_equal.
Qed.

Lemma decode_ascii_Ok (l : list byte) (s : string) :
  decode_ascii l = Ok s -> s = string_of_list_byte l.
Proof.
  unfold decode_ascii. destruct (forallb is_ascii l); [|discriminate].
  by intros [= <-].
Qed.

Lemma extract_title_Ok (field : list byte) (s : string) :
  extract_title field = Ok s ->
  exists title_end,
    s = string_of_list_byte (take title_end field)
    /\ (if contains_zero field then first_zero_at field title_end
        else title_end = 15%nat).
Proof.
  unfold extract_title. unfold_bind.
  destruct (contains_zero field) eqn:Hz.
  - destruct (index_zero field) as [k|] eqn:Hk; [|discriminate].
    intros Hd. exists k. split; [by apply decode_ascii_Ok | by apply index_zero_Ok].
  - intros Hd. exists 15%nat. split; [by apply decode_ascii_Ok | reflexivity].
Qed.

(** [__extract_title] can only fail in [decode]: [index] is guarded by [in]. *)
Lemma extract_title_Raise (field : list byte) (e : exn) :
  extract_title field = Raise e -> e = UnicodeDecodeError.
Proof.
  unfold extract_title. unfold_bind.
  assert (Hdec : forall l, decode_ascii l = Raise e -> e = UnicodeDecodeError).
  { intros l. unfold decode_ascii. destruct (forallb is_ascii l); congruence. }
  destruct (contains_zero field) eqn:Hz; [|apply Hdec].
  apply contains_zero_true, index_zero_found in Hz as [k ->]. apply Hdec.
Qed.

Lemma init_Ok (hdrdata : list byte) (self : CartridgeHeader) :
  CartridgeHeader_init hdrdata = Ok self ->
  data self = hdrdata
  /\ nintendo_logo self = slice 0x4 0x34 hdrdata
  /\ extract_title (slice 0x34 0x44 hdrdata) = Ok (title self)
  /\ getitem hdrdata 0x47 = Ok (cart_type self)
  /\ getitem hdrdata 0x48 = Ok (rom_size self)
  /\ getitem hdrdata 0x49 = Ok (ram_size self)
  /\ getitem hdrdata 0x4D = Ok (hdr_cksm self).
Proof.
  unfold CartridgeHeader_init. unfold_bind.
  destruct (extract_title _) as [t|]; [|discriminate].
  destruct (getitem hdrdata 0x47) as [c|]; [|discriminate].
  destruct (getitem hdrdata 0x48) as [ro|]; [|discriminate].
  destruct (getitem hdrdata 0x49) as [ra|]; [|discriminate].
  destruct (getitem hdrdata 0x4D) as [ck|]; [|discriminate].
  intros [= <-]. cbn. tauto.
Qed.

Lemma init_Raise (hdrdata : list byte) (e : exn) :
  CartridgeHeader_init hdrdata = Raise e ->
  e = IndexError \/ e = UnicodeDecodeError.
Proof.
  unfold CartridgeHeader_init. unfold_bind.
  destruct (extract_title _) as [t|e0] eqn:Ht.
  2:{ intros [= <-]. right. eapply extract_title_Raise; eauto. }
  assert (Hget : forall i e', getitem hdrdata i = Raise e' -> e' = IndexError)
    by (intros i e' Hi; by apply getitem_Raise in Hi as [_ ->]).
  destruct (getitem hdrdata 0x47) as [c|e0] eqn:H47;
    [|intros [= <-]; left; eauto].
  destruct (getitem hdrdata 0x48) as [ro|e0] eqn:H48;
    [|intros [= <-]; left; eauto].
  destruct (getitem hdrdata 0x49) as [ra|e0] eqn:H49;
    [|intros [= <-]; left; eauto].
  destruct (getitem hdrdata 0x4D) as [ck|e0] eqn:H4D;
    [discriminate|intros [= <-]; left; eauto].
Qed.

(** The loop of [valid] over the slice computes the recurrence over the
    offsets of the buffer. *)
Lemma fold_rolling_checksum (buf : list byte) (n : nat) :
  (0x34 + n <= length buf)%nat ->
  fold_left (fun x b => (x - byte_to_Z b - 1) mod 256)
            (take n (drop 0x34 buf)) 0
  = rolling_checksum buf n.
Proof.
  induction n as [|n IH]; intros Hlen.
  - by rewrite take_0.
  - destruct (buf !! (0x34 + n)%nat) as [b|] eqn:Hb.
    2:{ apply lookup_ge_None in Hb. lia. }
    assert (Hd : drop 0x34 buf !! n = Some b) by (by rewrite lookup_drop).
    rewrite (take_S_r _ _ _ Hd), fold_left_app, IH by lia.
    cbn [fold_left rolling_checksum]. unfold byte_at.
    by rewrite (nth_lookup_Some _ _ x00 _ Hb).
Qed.

Lemma rolling_checksum_range (buf : list byte) (n : nat) :
  0 <= rolling_checksum buf n < 256.
Proof.
  destruct n as [|n]; cbn [rolling_checksum]; [lia|].
  apply Z.mod_pos_bound. lia.
Qed.

(** ** The claims about the header *)

(** C1. For every 80-byte header buffer, [valid()] is true if and only if
    the value obtained by starting at 0 and applying [x = (x - b - 1) mod 256]
    to each of the 25 bytes at offsets [0x34, 0x4D) equals the checksum byte
    at offset 0x4D; the running value is an unsigned 8-bit number. *)
Theorem valid_iff_rolling_checksum (hdrdata : list byte) (self : CartridgeHeader) :
  length hdrdata = 80%nat ->
  CartridgeHeader_init hdrdata = Ok self ->
  (valid self = true <-> rolling_checksum hdrdata 25 = byte_at hdrdata 0x4D)
  /\ 0 <= rolling_checksum hdrdata 25 < 256.
Proof.
  intros Hlen Hinit. split; [|apply rolling_checksum_range].
  apply init_Ok in Hinit as (Hdata & _ & _ & _ & _ & _ & Hck).
  apply getitem_Ok in Hck as [_ Hck].
  unfold valid, slice. rewrite Hdata, Hck.
  change (0x4D - 0x34)%nat with 25%nat.
  rewrite fold_rolling_checksum by (rewrite Hlen; cbv; lia).
  apply Z.eqb_eq.
Qed.

Lemma valid_iff_rolling_checksum_witness :
  length hdr_blank = 80%nat
  /\ (exists self, CartridgeHeader_init hdr_blank = Ok self /\ valid self = true)
  /\ rolling_checksum hdr_blank 25 = byte_at hdr_blank 0x4D.
Proof.
  split; [reflexivity|].
  pose (self := mkCartridgeHeader hdr_blank (replicate 48 x00) "" 0 0 0 231).
  assert (Hinit : CartridgeHeader_init hdr_blank = Ok self) by reflexivity.
  destruct (valid_iff_rolling_checksum hdr_blank self eq_refl Hinit) as [Hiff _].
  split.
  - exists self. split; [exact Hinit | reflexivity].
  - apply Hiff. reflexivity.
Defined.

(** The title is the field cut at [title_end]: the first zero byte when
    there is one, 15 otherwise. *)
Lemma title_of_field (field : list byte) (s : string) :
  extract_title field = Ok s ->
  (x00 ∉ field -> s = string_of_list_byte (take 15 field))
  /\ (forall k, first_zero_at field k -> s = string_of_list_byte (take k field)).
Proof.
  intros Ht. apply extract_title_Ok in Ht as (te & -> & Hte).
  destruct (contains_zero field) eqn:Hz.
  - apply contains_zero_true in Hz. split; [done|].
    intros k Hk. by rewrite (first_zero_at_unique _ _ _ Hk Hte).
  - subst te. split; [done|].
    intros k [Hk _]. exfalso.
    assert (Hin : x00 ∈ field) by (by eapply list_elem_of_lookup_2).
    apply contains_zero_true in Hin. congruence.
Qed.

Lemma first_zero_at_take (field : list byte) (k : nat) :
  first_zero_at field k -> (x00 ∉ take k field) /\ (k < length field)%nat.
Proof.
  intros [Hk Hbefore]. split; [|by eapply lookup_lt_Some].
  intros Hin. apply list_elem_of_lookup in Hin as [j Hj].
  assert (Hjk : (j < k)%nat).
  { apply lookup_lt_Some in Hj. rewrite length_take in Hj. lia. }
  rewrite lookup_take_lt in Hj by exact Hjk. by apply (Hbefore j).
Qed.

(** C8. For every 80-byte header the title has at most 15 characters;
    exactly 15 when the title field [0x34, 0x44) holds no zero byte, exactly
    [k] when its first zero byte is at relative offset [k]; and the title
    never holds the terminator. *)
Theorem title_length (hdrdata : list byte) (self : CartridgeHeader) :
  length hdrdata = 80%nat ->
  CartridgeHeader_init hdrdata = Ok self ->
  let field := slice 0x34 0x44 hdrdata in
  (String.length (title self) <= 15)%nat
  /\ (x00 ∉ field -> String.length (title self) = 15%nat)
  /\ (forall k, first_zero_at field k -> String.length (title self) = k)
  /\ x00 ∉ list_byte_of_string (title self).
Proof.
  intros Hlen Hinit field.
  apply init_Ok in Hinit as (_ & _ & Ht & _).
  fold field in Ht.
  assert (Hfield : length field = 16%nat)
    by (unfold field; rewrite slice_length by lia; reflexivity).
  destruct (title_of_field _ _ Ht) as [Hnone Hsome].
  assert (H15 : x00 ∉ field -> String.length (title self) = 15%nat).
  { intros Hz. rewrite (Hnone Hz), string_of_list_byte_length, length_take. lia. }
  assert (Hk : forall k, first_zero_at field k ->
                         String.length (title self) = k /\ (k < 16)%nat).
  { intros k Hz. destruct (first_zero_at_take _ _ Hz) as [_ Hlt].
    rewrite (Hsome k Hz), string_of_list_byte_length, length_take. lia. }
  destruct (contains_zero field) eqn:Hz.
  - apply contains_zero_true, index_zero_found in Hz as [k Hz].
    apply index_zero_Ok in Hz. destruct (Hk k Hz) as [Hlenk Hlt].
    repeat split; [lia | exact H15 | intros k' Hz'; by apply Hk |].
    rewrite (Hsome k Hz), list_byte_of_string_of_list_byte.
    by apply first_zero_at_take.
  - assert (Hno : x00 ∉ field).
    { intros Hin. apply contains_zero_true in Hin. congruence. }
    repeat split; [rewrite (H15 Hno); lia | exact H15
                   | intros k' Hz'; by apply Hk |].
    rewrite (Hnone Hno), list_byte_of_string_of_list_byte.
    intros Hin. apply Hno. apply elem_of_take in Hin as (i & Hi & _).
    by eapply list_elem_of_lookup_2.
Qed.

Lemma title_length_witness :
  length hdr_zelda = 80%nat
  /\ first_zero_at (slice 0x34 0x44 hdr_zelda) 5
  /\ exists self, CartridgeHeader_init hdr_zelda = Ok self
                  /\ title self = "ZELDA"%string
                  /\ String.length (title self) = 5%nat.
Proof.
  pose (self := mkCartridgeHeader hdr_zelda (replicate 48 x00) "ZELDA" 3 5 2 109).
  assert (Hinit : CartridgeHeader_init hdr_zelda = Ok self) by reflexivity.
  assert (Hz : first_zero_at (slice 0x34 0x44 hdr_zelda) 5).
  { split; [reflexivity|]. intros j Hj.
    do 5 (destruct j as [|j]; [discriminate|]). lia. }
  destruct (title_length hdr_zelda self eq_refl Hinit) as (_ & _ & Hk & _).
  split; [reflexivity|]. split; [exact Hz|].
  exists self. split; [exact Hinit|]. split; [reflexivity|].
  exact (Hk 5%nat Hz).
Defined.

(** C9, as stated, fails: with sixteen letters and no zero byte in the title
    field, the title is the first fifteen letters, not all sixteen. *)
Lemma full_title_drops_16th_byte :
  let field := slice 0x34 0x44 hdr_full_title in
  length hdr_full_title = 80%nat
  /\ field = replicate 16 x41
  /\ contains_zero field = false
  /\ string_of_list_byte field = "AAAAAAAAAAAAAAAA"%string
  /\ CartridgeHeader_init hdr_full_title
     = Ok (mkCartridgeHeader hdr_full_title (replicate 48 x00)
                             "AAAAAAAAAAAAAAA" 0 0 0 0).
Proof. repeat split. Qed.

(** C9, amended. For every header whose title field holds no zero byte, the
    title is the ASCII decoding of the first 15 bytes of the field. *)
Theorem title_without_terminator (hdrdata : list byte) (self : CartridgeHeader) :
  CartridgeHeader_init hdrdata = Ok self ->
  x00 ∉ slice 0x34 0x44 hdrdata ->
  title self = string_of_list_byte (take 15 (slice 0x34 0x44 hdrdata)).
Proof.
  intros Hinit Hno. apply init_Ok in Hinit as (_ & _ & Ht & _).
  destruct (title_of_field _ _ Ht) as [Hnone _]. by apply Hnone.
Qed.

Lemma title_without_terminator_witness :
  exists self, CartridgeHeader_init hdr_full_title = Ok self
               /\ title self = "AAAAAAAAAAAAAAA"%string.
Proof.
  pose (self := mkCartridgeHeader hdr_full_title (replicate 48 x00)
                                  "AAAAAAAAAAAAAAA" 0 0 0 0).
  assert (Hinit : CartridgeHeader_init hdr_full_title = Ok self) by reflexivity.
  assert (Hno : x00 ∉ slice 0x34 0x44 hdr_full_title).
  { intros Hin. apply contains_zero_true in Hin. discriminate Hin. }
  exists self. split; [exact Hinit|].
  rewrite (title_without_terminator hdr_full_title self Hinit Hno).
  reflexivity.
Defined.

(** C10, as stated, fails: a 78-byte buffer is shorter than 80 bytes and a
    header is constructed from it. *)
Lemma init_accepts_78_bytes :
  length (replicate 78 x00) = 78%nat
  /\ CartridgeHeader_init (replicate 78 x00)
     = Ok (mkCartridgeHeader (replicate 78 x00) (replicate 48 x00) "" 0 0 0 0).
Proof. split; reflexivity. Qed.

(** C10, amended. The last byte [__init__] reads is at offset 0x4D: for
    every buffer shorter than 78 bytes construction fails, with [IndexError]
    or, when the title bytes are not ASCII, [UnicodeDecodeError]; and
    construction succeeds only on buffers of at least 78 bytes. *)
Theorem init_needs_78_bytes (hdrdata : list byte) :
  ((length hdrdata < 78)%nat ->
   exists e, CartridgeHeader_init hdrdata = Raise e
             /\ (e = IndexError \/ e = UnicodeDecodeError))
  /\ (forall self, CartridgeHeader_init hdrdata = Ok self ->
                   (78 <= length hdrdata)%nat).
Proof.
  assert (Hok : forall self, CartridgeHeader_init hdrdata = Ok self ->
                             (78 <= length hdrdata)%nat).
  { intros self Hinit. apply init_Ok in Hinit as (_ & _ & _ & _ & _ & _ & Hck).
    apply getitem_Ok in Hck as [Hlt _]. change 0x4D%nat with 77%nat in Hlt. lia. }
  split; [|exact Hok].
  intros Hshort. destruct (CartridgeHeader_init hdrdata) as [self|e] eqn:Hinit.
  - specialize (Hok self eq_refl). lia.
  - exists e. split; [reflexivity | by apply (init_Raise hdrdata)].
Qed.

Lemma init_needs_78_bytes_witness :
  CartridgeHeader_init (replicate 77 x00) = Raise IndexError
  /\ (78 <= length hdr_blank)%nat.
Proof.
  split.
  - destruct (init_needs_78_bytes (replicate 77 x00)) as [Hshort _].
    assert (Hlen : (length (replicate 77 x00) < 78)%nat) by (cbv; lia).
    destruct (Hshort Hlen) as (e & He & _). reflexivity.
  - destruct (init_needs_78_bytes hdr_blank) as [_ Hok].
    exact (Hok (mkCartridgeHeader hdr_blank (replicate 48 x00) "" 0 0 0 231)
               eq_refl).
Defined.

(** * Properties of the size computations *)

Lemma getitem_range (d : list byte) (i : nat) (v : Z) :
  getitem d i = Ok v -> 0 <= v < 256.
Proof.
  intros Hv. apply getitem_Ok in Hv as [_ ->]. apply byte_to_Z_range.
Qed.

(** C7. For every ROM size code of a header, the ROM block count is
    [32 * (2 << code)], that is [32 * (2 * 2 ^ code)]: 64 blocks of 512 bytes
    (32 KB) for code 0, 128 blocks (64 KB) for code 1, doubling with every
    code. *)
Theorem dumprom_num_blocks_spec (hdrdata : list byte) (header : CartridgeHeader) :
  CartridgeHeader_init hdrdata = Ok header ->
  let code := rom_size header in
  code = byte_at hdrdata 0x48
  /\ Main.dumprom_num_blocks header = 32 * (2 * 2 ^ code)
  /\ (code = 0 -> Main.dumprom_num_blocks header = 64)
  /\ (code = 1 -> Main.dumprom_num_blocks header = 128)
  /\ 512 * Main.dumprom_num_blocks header = 32 * 1024 * 2 ^ code.
Proof.
  intros Hinit code.
  apply init_Ok in Hinit as (_ & _ & _ & _ & Hrom & _).
  pose proof (getitem_range _ _ _ Hrom) as Hrange.
  apply getitem_Ok in Hrom as [_ Hrom]. fold code in Hrom, Hrange.
  assert (Hn : Main.dumprom_num_blocks header = 32 * (2 * 2 ^ code)).
  { unfold Main.dumprom_num_blocks. fold code.
    rewrite Z.shiftl_mul_pow2 by lia. reflexivity. }
  repeat split; [exact Hrom | exact Hn | | | lia].
  - intros H0. rewrite Hn, H0. reflexivity.
  - intros H1. rewrite Hn, H1. reflexivity.
Qed.

Lemma dumprom_num_blocks_spec_witness :
  exists header, CartridgeHeader_init hdr_zelda = Ok header
                 /\ rom_size header = 5
                 /\ Main.dumprom_num_blocks header = 2048.
Proof.
  pose (header := mkCartridgeHeader hdr_zelda (replicate 48 x00) "ZELDA" 3 5 2 109).
  assert (Hinit : CartridgeHeader_init hdr_zelda = Ok header) by reflexivity.
  destruct (dumprom_num_blocks_spec hdr_zelda header Hinit) as (_ & Hn & _).
  exists header. split; [exact Hinit|]. split; [reflexivity|].
  rewrite Hn. reflexivity.
Defined.

Lemma ram_banks_lookup (code : Z) :
  Main.dict_get Main.ram_banks code 0
  = if code =? 2 then 1 else if code =? 3 then 4
    else if code =? 4 then 16 else if code =? 5 then 8 else 0.
Proof.
  unfold Main.dict_get, Main.ram_banks.
  destruct (Z.eqb_spec code 2) as [->|?]; [reflexivity|].
  destruct (Z.eqb_spec code 3) as [->|?]; [reflexivity|].
  destruct (Z.eqb_spec code 4) as [->|?]; [reflexivity|].
  destruct (Z.eqb_spec code 5) as [->|?]; [reflexivity|].
  by rewrite !lookup_insert_ne, lookup_singleton_ne by congruence.
Qed.

(** * Properties of the transfers *)

Section Transfers.
Context {Ser : Type} `{Transport Ser}.

Lemma for_cons (x : nat) (xs : list nat) (body : nat -> io Ser unit) (w : world Ser) :
  for_ (x :: xs) body w
  = match body x w with
    | (Ok _, w') => for_ xs body w'
    | (Raise e, w') => (Raise e, w')
    end.
Proof. reflexivity. Qed.

(** *** [dump] *)

Lemma dump_loop_run (xs : list nat) (dump_ : list byte) (w : world Ser) :
  dump_loop xs dump_ w
  = (Ok (dump_ ++ concat (ser_reads (length xs) (port w)).1),
     mkWorld (ser_reads (length xs) (port w)).2
             (log w ++ (EvRead 512 <$> (ser_reads (length xs) (port w)).1))).
Proof.
  revert dump_ w. induction xs as [|x xs IH]; intros dump_ w.
  - destruct w as [p l]. cbn. by rewrite !app_nil_r.
  - cbn [dump_loop length ser_reads]. unfold_bind. unfold read at 1.
    destruct (ser_read 512 (port w)) as [block p1] eqn:Hread.
    rewrite IH. cbn [port log emit].
    destruct (ser_reads (length xs) p1) as [blocks p2].
    cbn. by rewrite <- !app_assoc.
Qed.

Lemma ser_reads_length (n : nat) (p : Ser) : length (ser_reads n p).1 = n.
Proof.
  revert p. induction n as [|n IH]; intros p; [reflexivity|].
  cbn [ser_reads]. destruct (ser_read 512 p) as [block p1].
  specialize (IH p1). destruct (ser_reads n p1) as [blocks p2].
  cbn in *. by rewrite IH.
Qed.

Lemma concat_length_uniform {A} (size : nat) (ls : list (list A)) :
  Forall (fun l => length l = size) ls ->
  length (concat ls) = (size * length ls)%nat.
Proof.
  induction 1 as [|l ls Hl _ IH]; cbn; [lia|].
  rewrite length_app, IH, Hl. lia.
Qed.
(** C2, amended. [dump] performs exactly [num_blocks] reads of 512 bytes,
    never raises, and hands to the output file the concatenation, in arrival
    order, of whatever the reads returned: a short block is appended as it
    came.  The output has [512 * num_blocks] bytes when every read returned
    exactly 512 bytes. *)
Theorem dump_appends_what_arrives (title : string) (num_blocks : Z) (w : world Ser) :
  let n := Z.to_nat num_blocks in
  let blocks := (ser_reads n (port w)).1 in
  dump title num_blocks w
  = (Ok tt, mkWorld (ser_reads n (port w)).2
                    (log w ++ (EvRead 512 <$> blocks)
                           ++ [EvWriteBytes title (concat blocks)]))
  /\ length blocks = n
  /\ (Forall (fun block => length block = 512%nat) blocks ->
      length (concat blocks) = (512 * n)%nat).
Proof.
  intros n blocks. split; [|split].
  - unfold dump, range. unfold_bind. rewrite dump_loop_run, length_seq.
    fold n. fold blocks. cbn. unfold write_bytes, emit. cbn [port log].
    by rewrite <- app_assoc.
  - apply ser_reads_length.
  - intros Hfull. rewrite (concat_length_uniform 512) by exact Hfull.
    unfold blocks. by rewrite ser_reads_length.
Qed.

End Transfers.

(** C2, as stated, fails: the transport has three bytes to give, the one
    read of 512 bytes returns them, and [dump] writes the three bytes to the
    file without raising. *)
Lemma dump_accepts_short_block :
  dump "rom" 1 (mkWorld (mkMock [x01; x02; x03] [] 32) [])
  = (Ok tt, mkWorld (mkMock [] [] 32)
                    [EvRead 512 [x01; x02; x03];
                     EvWriteBytes "rom" [x01; x02; x03]]).
Proof. reflexivity. Qed.

Lemma dump_appends_what_arrives_witness :
  Forall (fun block => length block = 512%nat)
         (ser_reads 2 (mkMock (replicate 1024 x2a) [] 32)).1
  /\ length (concat (ser_reads 2 (mkMock (replicate 1024 x2a) [] 32)).1)
     = 1024%nat.
Proof.
  pose (w := mkWorld (mkMock (replicate 1024 x2a) [] 32) []).
  destruct (dump_appends_what_arrives "rom" 2 w) as (_ & _ & Hfull).
  assert (Hblocks : Forall (fun block => length block = 512%nat)
                           (ser_reads 2 (port w)).1).
  { repeat constructor. }
  split; [exact Hblocks | exact (Hfull Hblocks)].
Defined.

(** *** The patterns of calls *)

Lemma chunk_ops_add (a b : nat) : chunk_ops (a + b) = chunk_ops a ++ chunk_ops b.
Proof. unfold chunk_ops. by rewrite replicate_add, concat_app. Qed.

Lemma flash_ops_add (a b : nat) : flash_ops (a + b) = flash_ops a ++ flash_ops b.
Proof. unfold flash_ops. by rewrite replicate_add, concat_app. Qed.

(** A run that aborts in chunk [k] of bank [i] has made a prefix of the calls
    of a complete run. *)
Lemma aborted_ops_prefix (i k n : nat) :
  (i < n)%nat -> (k < 256)%nat ->
  (flash_ops i ++ chunk_ops k) ++ [OpWrite] `prefix_of` flash_ops n.
Proof.
  intros Hi Hk.
  replace n with (i + (1 + (n - i - 1)))%nat by lia.
  rewrite !flash_ops_add.
  change (flash_ops 1) with (bank_ops ++ []). unfold bank_ops.
  replace 256%nat with (k + (1 + (256 - k - 1)))%nat by lia.
  rewrite !chunk_ops_add. change (chunk_ops 1) with [OpWrite; OpRead 1].
  rewrite <- !app_assoc. do 2 apply prefix_app. cbn [app].
  apply prefix_cons, prefix_nil.
Qed.

Lemma stop_and_wait_tail (o : op) (l : list op) :
  stop_and_wait (o :: l) = true -> stop_and_wait l = true.
Proof.
  destruct o; cbn [stop_and_wait]; try done.
  destruct l as [|[|[|[|size]]|] rest]; done.
Qed.

Lemma stop_and_wait_chunk_ops (k : nat) (rest : list op) :
  stop_and_wait (chunk_ops k ++ rest) = stop_and_wait rest.
Proof.
  induction k as [|k IH]; [reflexivity|].
  change (chunk_ops (S k)) with ([OpWrite; OpRead 1] ++ chunk_ops k).
  rewrite <- app_assoc. exact IH.
Qed.

Lemma stop_and_wait_flash_ops (n : nat) : stop_and_wait (flash_ops n) = true.
Proof.
  induction n as [|n IH]; [reflexivity|].
  change (flash_ops (S n)) with (bank_ops ++ flash_ops n). unfold bank_ops.
  rewrite <- app_assoc, stop_and_wait_chunk_ops. exact IH.
Qed.

Lemma stop_and_wait_prefix (l1 l2 : list op) :
  stop_and_wait (l1 ++ l2) = true -> stop_and_wait l1 = true.
Proof.
  induction l1 as [|o l1 IH]; [reflexivity|].
  intros Hsw. pose proof (stop_and_wait_tail _ _ Hsw) as Htail.
  specialize (IH Htail).
  destruct o; cbn [stop_and_wait app] in *; try exact IH.
  destruct l1 as [|[|[|[|size]]|] l1]; cbn [app] in *; done.
Qed.

Lemma stop_and_wait_next (l1 l2 : list op) (o : op) :
  stop_and_wait (l1 ++ OpWrite :: o :: l2) = true -> o = OpRead 1.
Proof.
  induction l1 as [|o1 l1 IH]; intros Hsw.
  - cbn in Hsw. destruct o as [|[|[|size]]|]; done.
  - apply IH. by apply (stop_and_wait_tail o1).
Qed.

Lemma op_of_read (ev : event) :
  op_of ev = OpRead 1 -> exists got, ev = EvRead 1 got.
Proof. destruct ev; intros [=]; subst; by eexists. Qed.

Lemma aborted_app (t1 t2 : list event) (before : list op) :
  Forall accepted t1 -> aborted t2 before -> aborted (t1 ++ t2) (ops t1 ++ before).
Proof.
  intros Hacc (t0 & sent & written & -> & Hne & <- & Hacc0).
  exists (t1 ++ t0), sent, written. repeat split.
  - by rewrite app_assoc.
  - exact Hne.
  - unfold ops. by rewrite fmap_app.
  - by apply Forall_app.
Qed.

(** An event after a write the transport did not take whole cannot exist. *)
Lemma short_write_is_last (t0 pre post : list event) (last sent : event) :
  Forall accepted t0 -> ~ accepted sent ->
  t0 ++ [last] = pre ++ sent :: post -> post = [].
Proof.
  intros Hacc Hshort Heq.
  destruct post as [|ev post _] using rev_ind; [reflexivity|].
  exfalso. apply Hshort.
  change (pre ++ sent :: post ++ [ev]) with (pre ++ (sent :: post) ++ [ev]) in Heq.
  rewrite app_assoc in Heq. apply app_inj_tail in Heq as [-> _].
  apply Forall_app in Hacc as [_ Hacc]. by inversion Hacc.
Qed.

(** *** [flash] *)

Section Flash.
Context {Ser : Type} `{Transport Ser}.

(** One iteration of the inner loop, call by call. *)
Lemma flash_chunk_run (bank : list byte) (j : nat) (w : world Ser) :
  let chunk := slice (j * 32) ((j + 1) * 32) bank in
  let written := (ser_write chunk (port w)).1 in
  let p1 := (ser_write chunk (port w)).2 in
  flash_chunk bank j w
  = if written =? 32
    then (Ok tt, mkWorld (ser_read 1 p1).2
                         (log w ++ [EvWrite chunk written;
                                    EvRead 1 (ser_read 1 p1).1]))
    else (Raise AssertionError, mkWorld p1 (log w ++ [EvWrite chunk written])).
Proof.
  intros chunk written p1. unfold flash_chunk. fold chunk. unfold_bind.
  unfold write at 1. subst written p1.
  destruct (ser_write chunk (port w)) as [written p1]. cbn [fst snd].
  unfold assert_. destruct (written =? 32); [|reflexivity].
  unfold read, emit. cbn [port log].
  destruct (ser_read 1 p1) as [got p2]. cbn [fst snd].
  by rewrite <- app_assoc.
Qed.

Lemma slice_chunk (unit j : nat) (l : list byte) :
  slice (j * unit) ((j + 1) * unit) l = take unit (drop (j * unit) l).
Proof. unfold slice. f_equal. lia. Qed.

Lemma flash_chunk_outcome (bank : list byte) (j : nat) (w : world Ser) :
  exists t,
    log (flash_chunk bank j w).2 = log w ++ t
    /\ outcome (flash_chunk bank j w).1 t [OpWrite; OpRead 1] (fun b => b = []).
Proof.
  rewrite flash_chunk_run. cbv zeta.
  destruct (Z.eqb_spec (ser_write (slice (j * 32) ((j + 1) * 32) bank) (port w)).1 32)
    as [Heq|Hne].
  - eexists. split; [reflexivity|]. cbn [fst outcome]. split; [reflexivity|].
    repeat constructor. exact Heq.
  - eexists. split; [reflexivity|]. cbn [fst outcome]. split; [reflexivity|].
    exists []. split; [reflexivity|].
    exists [], (slice (j * 32) ((j + 1) * 32) bank),
           (ser_write (slice (j * 32) ((j + 1) * 32) bank) (port w)).1.
    repeat split; [exact Hne | constructor].
Qed.

(** A loop whose body ends as [outcome] says ends likewise: all its
    iterations done, or some done and the next one aborted. *)
Lemma for_outcome (body : nat -> io Ser unit) (unit_ops : list op)
      (partial : list op -> Prop) :
  (forall x w, exists t,
      log (body x w).2 = log w ++ t
      /\ outcome (body x w).1 t unit_ops partial) ->
  forall xs w, exists t,
    log (for_ xs body w).2 = log w ++ t
    /\ outcome (for_ xs body w).1 t
               (concat (replicate (length xs) unit_ops))
               (fun before => exists i b,
                    (i < length xs)%nat /\ partial b
                    /\ before = concat (replicate i unit_ops) ++ b).
Proof.
  intros Hbody xs. induction xs as [|x xs IH]; intros w.
  - exists []. split; [symmetry; apply app_nil_r|].
    split.
    + reflexivity.
    + constructor.
  - rewrite for_cons. destruct (Hbody x w) as (t1 & Hlog1 & Hout1).
    destruct (body x w) as [[[]|e] w1]; cbn [fst snd] in *.
    + destruct (IH w1) as (t2 & Hlog2 & Hout2). destruct Hout1 as [Hops1 Hacc1].
      exists (t1 ++ t2). split; [by rewrite Hlog2, Hlog1, app_assoc|].
      destruct (for_ xs body w1).1 as [[]|e2]; cbn [outcome length replicate concat] in *.
      * destruct Hout2 as [Hops2 Hacc2]. split; [|by apply Forall_app].
        unfold ops in *. by rewrite fmap_app, Hops1, Hops2.
      * destruct Hout2 as (-> & before & (i & b & Hi & Hb & ->) & Hab).
        split; [reflexivity|]. exists (unit_ops ++ concat (replicate i unit_ops) ++ b).
        split.
        -- exists (S i), b. split; [cbn [length] in *; lia|].
           split; [exact Hb|].
           cbn [replicate concat]. by rewrite <- app_assoc.
        -- subst unit_ops. by apply aborted_app.
    + exists t1. split; [exact Hlog1|]. destruct Hout1 as (-> & before & Hb & Hab).
      split; [reflexivity|]. exists before. split; [|exact Hab].
      exists 0%nat, before. split; [cbn [length]; lia|]. by split.
Qed.

Lemma outcome_weaken (r : result unit) (t : list event) (full full' : list op)
      (partial partial' : list op -> Prop) :
  full = full' -> (forall b, partial b -> partial' b) ->
  outcome r t full partial -> outcome r t full' partial'.
Proof.
  intros <- Hsub. destruct r as [[]|e]; cbn [outcome]; [done|].
  intros (-> & before & Hb & Hab). split; [reflexivity|].
  exists before. split; [by apply Hsub | exact Hab].
Qed.

Lemma flash_bank_outcome (data : list byte) (i : nat) (w : world Ser) :
  exists t,
    log (flash_bank data i w).2 = log w ++ t
    /\ outcome (flash_bank data i w).1 t bank_ops
               (fun b => exists k, (k < 256)%nat /\ b = chunk_ops k).
Proof.
  unfold flash_bank.
  set (bank := slice (i * 0x2000) ((i + 1) * 0x2000) data).
  destruct (for_outcome (flash_chunk bank) [OpWrite; OpRead 1] (fun b => b = [])
                        (flash_chunk_outcome bank) (seq 0 256) w)
    as (t1 & Hlog1 & Hout1).
  rewrite length_seq in Hout1. fold (chunk_ops 256) in Hout1.
  unfold_bind.
  destruct (for_ (seq 0 256) (flash_chunk bank) w) as [[[]|e] w1];
    cbn [fst snd outcome] in *.
  - destruct Hout1 as [Hops1 Hacc1]. unfold read.
    destruct (ser_read 1 (port w1)) as [got p2]. cbn [fst snd emit log].
    exists (t1 ++ [EvRead 1 got]). split; [by rewrite Hlog1, app_assoc|].
    split.
    + unfold ops, bank_ops in *. by rewrite fmap_app, Hops1.
    + apply Forall_app. split; [exact Hacc1 | by repeat constructor].
  - exists t1. split; [exact Hlog1|].
    destruct Hout1 as (-> & before & (k & b & Hk & -> & Hbefore) & Hab).
    split; [reflexivity|]. exists before. split; [|exact Hab].
    exists k. split; [exact Hk|]. rewrite Hbefore. apply app_nil_r.
Qed.

(** How every run of [flash] ends. *)
Lemma flash_outcome (data : list byte) (num_banks : Z) (w : world Ser) :
  exists t,
    log (flash data num_banks w).2 = log w ++ t
    /\ outcome (flash data num_banks w).1 t (flash_ops (Z.to_nat num_banks))
               (fun before => exists i k,
                    (i < Z.to_nat num_banks)%nat /\ (k < 256)%nat
                    /\ before = flash_ops i ++ chunk_ops k).
Proof.
  unfold flash.
  destruct (for_outcome (flash_bank data) bank_ops _
                        (flash_bank_outcome data) (range num_banks) w)
    as (t & Hlog & Hout).
  exists t. split; [exact Hlog|].
  unfold range in *. rewrite length_seq in Hout.
  eapply outcome_weaken; [reflexivity | | exact Hout].
  intros b (i & b' & Hi & (k & Hk & ->) & ->). by exists i, k.
Qed.

(** C3. In every run of [flash], whether it completes or aborts, the calls
    made on the transport are a prefix of the sequence that has, for each
    bank, 256 times a chunk write followed by one synchronizing read, then
    one more synchronizing read; a complete run makes exactly this sequence.
    So a write is never followed by another write: the next call is always
    the read that consumes its acknowledgment. *)
Theorem flash_stop_and_wait (data : list byte) (num_banks : Z) (w : world Ser) :
  exists t,
    log (flash data num_banks w).2 = log w ++ t
    /\ ops t `prefix_of` flash_ops (Z.to_nat num_banks)
    /\ (is_ok (flash data num_banks w).1 = true ->
        ops t = flash_ops (Z.to_nat num_banks))
    /\ (forall pre sent written next post,
           t = pre ++ EvWrite sent written :: next :: post ->
           exists got, next = EvRead 1 got).
Proof.
  destruct (flash_outcome data num_banks w) as (t & Hlog & Hout).
  exists t. split; [exact Hlog|].
  assert (Hpre : ops t `prefix_of` flash_ops (Z.to_nat num_banks)).
  { destruct (flash data num_banks w).1 as [[]|e]; cbn [outcome] in Hout.
    - destruct Hout as [-> _]. reflexivity.
    - destruct Hout as (_ & before & (i & k & Hi & Hk & ->) & Hab).
      destruct Hab as (t0 & sent & written & -> & _ & Hops & _).
      unfold ops in *. rewrite fmap_app, Hops. cbn [fmap list_fmap op_of].
      by apply aborted_ops_prefix. }
  split; [exact Hpre|]. split.
  - destruct (flash data num_banks w).1 as [[]|e]; cbn [outcome is_ok] in *;
      [intros _; apply Hout | discriminate].
  - intros pre sent written next post ->.
    apply op_of_read. destruct Hpre as [rest Hrest].
    pose proof (stop_and_wait_flash_ops (Z.to_nat num_banks)) as Hsw.
    rewrite Hrest in Hsw. apply stop_and_wait_prefix in Hsw.
    unfold ops in Hsw. rewrite fmap_app in Hsw. cbn [fmap list_fmap op_of] in Hsw.
    by apply stop_and_wait_next in Hsw.
Qed.

(** C4. If some chunk write of a run of [flash] is accepted for fewer than
    32 bytes, the run fails on the [assert] and that write is the last call
    made on the transport: no further chunk is written. *)
Theorem flash_short_write_aborts (data : list byte) (num_banks : Z) (w : world Ser)
        (pre post : list event) (sent : list byte) (written : Z) :
  log (flash data num_banks w).2 = log w ++ pre ++ EvWrite sent written :: post ->
  written < 32 ->
  (flash data num_banks w).1 = Raise AssertionError /\ post = [].
Proof.
  intros Hlog Hshort.
  destruct (flash_outcome data num_banks w) as (t & Hlog' & Hout).
  rewrite Hlog' in Hlog. apply app_inv_head in Hlog. subst t.
  assert (Hnot : ~ accepted (EvWrite sent written)) by (cbn; lia).
  destruct (flash data num_banks w).1 as [[]|e]; cbn [outcome] in Hout.
  - exfalso. destruct Hout as [_ Hacc]. apply Hnot.
    apply Forall_app in Hacc as [_ Hacc]. by inversion Hacc.
  - destruct Hout as (-> & before & _ & (t0 & s0 & w0 & Heq & _ & _ & Hacc)).
    split; [reflexivity|]. symmetry in Heq.
    by apply (short_write_is_last _ _ _ _ _ Hacc Hnot Heq).
Qed.

(** *** What [flash] sends *)

Lemma sent_bytes_app (t1 t2 : list event) :
  sent_bytes (t1 ++ t2) = sent_bytes t1 ++ sent_bytes t2.
Proof. unfold sent_bytes. by rewrite omap_app, concat_app. Qed.

Lemma flash_chunk_sent (bank : list byte) (j : nat) (w : world Ser) :
  exists t m,
    log (flash_chunk bank j w).2 = log w ++ t
    /\ sent_bytes t = take m (drop (j * 32) bank)
    /\ (is_ok (flash_chunk bank j w).1 = true -> m = 32%nat).
Proof.
  rewrite flash_chunk_run. cbv zeta. rewrite slice_chunk.
  destruct (_ =? 32); eexists; exists 32%nat;
    (split; [reflexivity|]); (split; [|reflexivity]);
    cbn; apply app_nil_r.
Qed.

(** A loop over consecutive units of [l] sends consecutive bytes of [l]. *)
Lemma for_sent (size : nat) (body : nat -> io Ser unit) (l : list byte) :
  (forall x w, exists t m,
      log (body x w).2 = log w ++ t
      /\ sent_bytes t = take m (drop (x * size) l)
      /\ (is_ok (body x w).1 = true -> m = size)) ->
  forall k j0 w, exists t m,
    log (for_ (seq j0 k) body w).2 = log w ++ t
    /\ sent_bytes t = take m (drop (j0 * size) l)
    /\ (is_ok (for_ (seq j0 k) body w).1 = true -> m = (k * size)%nat).
Proof.
  intros Hbody k. induction k as [|k IH]; intros j0 w.
  - exists [], 0%nat. split; [symmetry; apply app_nil_r|].
    split; [by rewrite take_0 | reflexivity].
  - cbn [seq]. rewrite for_cons.
    destruct (Hbody j0 w) as (t1 & m1 & Hlog1 & Hsent1 & Hm1).
    destruct (body j0 w) as [[[]|e] w1]; cbn [fst snd is_ok] in *.
    + destruct (IH (S j0) w1) as (t2 & m2 & Hlog2 & Hsent2 & Hm2).
      exists (t1 ++ t2), (size + m2)%nat.
      split; [by rewrite Hlog2, Hlog1, app_assoc|]. split.
      * rewrite sent_bytes_app, Hsent1, Hsent2, (Hm1 eq_refl).
        replace (S j0 * size)%nat with (j0 * size + size)%nat by lia.
        rewrite <- drop_drop. apply take_take_drop.
      * intros Hok. rewrite (Hm2 Hok). lia.
    + exists t1, m1. split; [exact Hlog1|]. split; [exact Hsent1 | discriminate].
Qed.

Lemma flash_bank_sent (data : list byte) (i : nat) (w : world Ser) :
  exists t m,
    log (flash_bank data i w).2 = log w ++ t
    /\ sent_bytes t = take m (drop (i * 0x2000) data)
    /\ (is_ok (flash_bank data i w).1 = true -> m = 0x2000%nat).
Proof.
  unfold flash_bank. rewrite slice_chunk.
  set (bank := take 0x2000 (drop (i * 0x2000) data)).
  destruct (for_sent 32 (flash_chunk bank) bank (flash_chunk_sent bank) 256 0%nat w)
    as (t1 & m1 & Hlog1 & Hsent1 & Hm1).
  rewrite drop_0 in Hsent1. unfold bank in Hsent1. rewrite take_take in Hsent1.
  unfold_bind.
  destruct (for_ (seq 0 256) (flash_chunk bank) w) as [[[]|e] w1];
    cbn [fst snd is_ok] in *.
  - unfold read. destruct (ser_read 1 (port w1)) as [got p2].
    cbn [fst snd emit log is_ok].
    exists (t1 ++ [EvRead 1 got]), (m1 `min` 0x2000)%nat.
    split; [by rewrite Hlog1, app_assoc|]. split.
    + rewrite sent_bytes_app, Hsent1. apply app_nil_r.
    + intros _. rewrite (Hm1 eq_refl). reflexivity.
  - exists t1, (m1 `min` 0x2000)%nat.
    split; [exact Hlog1|]. split; [exact Hsent1 | discriminate].
Qed.

(** Whatever the transport does, the bytes [flash] sends are a prefix of
    [data]: slices of it, in order, with nothing added. *)
Lemma flash_sent (data : list byte) (num_banks : Z) (w : world Ser) :
  exists t,
    log (flash data num_banks w).2 = log w ++ t
    /\ sent_bytes t `prefix_of` data.
Proof.
  unfold flash, range.
  destruct (for_sent 0x2000 (flash_bank data) data (flash_bank_sent data)
                     (Z.to_nat num_banks) 0%nat w)
    as (t & m & Hlog & Hsent & _).
  exists t. split; [exact Hlog|].
  rewrite Hsent, drop_0. apply prefix_take.
Qed.

(** *** [flash] on data shorter than the banks asked for *)

Lemma for_Ok_body (body : nat -> io Ser unit) (xs : list nat) (w : world Ser) :
  is_ok (for_ xs body w).1 = true ->
  forall x, x ∈ xs -> exists w1, is_ok (body x w1).1 = true.
Proof.
  revert w. induction xs as [|x0 xs IH]; intros w Hok x Hin.
  - by apply elem_of_nil in Hin.
  - rewrite for_cons in Hok.
    destruct (body x0 w) as [[[]|e] w1] eqn:Hbody; [|discriminate].
    apply elem_of_cons in Hin as [->|Hin].
    + exists w. by rewrite Hbody.
    + by apply (IH w1).
Qed.

(** With a transport that accepts no more than it is given, a chunk passes
    the [assert] only if the bank holds all of its 32 bytes. *)
Lemma flash_chunk_Ok_full (bank : list byte) (j : nat) (w : world Ser) :
  honest Ser ->
  is_ok (flash_chunk bank j w).1 = true ->
  ((j + 1) * 32 <= length bank)%nat.
Proof.
  intros Hhonest. rewrite flash_chunk_run. cbv zeta.
  specialize (Hhonest (slice (j * 32) ((j + 1) * 32) bank) (port w)).
  destruct (Z.eqb_spec (ser_write (slice (j * 32) ((j + 1) * 32) bank) (port w)).1 32)
    as [Heq|Hne]; [intros _|discriminate].
  rewrite Heq, slice_chunk, length_take, length_drop in Hhonest. lia.
Qed.

Lemma flash_bank_Ok_full (data : list byte) (i : nat) (w : world Ser) :
  honest Ser ->
  is_ok (flash_bank data i w).1 = true ->
  ((i + 1) * 0x2000 <= length data)%nat.
Proof.
  intros Hhonest. unfold flash_bank. rewrite slice_chunk.
  set (bank := take 0x2000 (drop (i * 0x2000) data)).
  unfold_bind.
  destruct (for_ (seq 0 256) (flash_chunk bank) w) as [[[]|e] w1] eqn:Hfor;
    [intros _|discriminate].
  assert (Hok : is_ok (for_ (seq 0 256) (flash_chunk bank) w).1 = true)
    by (by rewrite Hfor).
  destruct (for_Ok_body _ _ _ Hok 255%nat) as [w2 Hlast].
  { apply elem_of_seq. lia. }
  apply (flash_chunk_Ok_full _ _ _ Hhonest) in Hlast.
  unfold bank in Hlast. rewrite length_take, length_drop in Hlast.
  change ((255 + 1) * 32)%nat with 0x2000%nat in Hlast. lia.
Qed.

End Flash.

(** C6. For every RAM size code, the block count of the RAM dump is the
    entry of the table [{2: 1, 3: 4, 4: 16, 5: 8}] times 16, so 16, 64, 256
    and 128 blocks for codes 2, 3, 4 and 5; the bank count for flashing is
    the entry itself; and every other code gives 0 units on both paths, which
    is an empty transfer and not an error. *)
Theorem ram_size_table (header : CartridgeHeader) :
  let code := ram_size header in
  let blocks := Main.dumpram_num_blocks header in
  let banks := Main.flashram_num_blocks header in
  blocks = banks * 16
  /\ (code = 2 -> banks = 1 /\ blocks = 16)
  /\ (code = 3 -> banks = 4 /\ blocks = 64)
  /\ (code = 4 -> banks = 16 /\ blocks = 256)
  /\ (code = 5 -> banks = 8 /\ blocks = 128)
  /\ (code <> 2 -> code <> 3 -> code <> 4 -> code <> 5 ->
      banks = 0 /\ blocks = 0
      /\ forall (Ser : Type) (T : Transport Ser) (w : world Ser)
                (title : string) (data : list byte),
          dump title blocks w = (Ok tt, emit (EvWriteBytes title []) w (port w))
          /\ flash data banks w = (Ok tt, w)).
Proof.
  intros code blocks banks.
  unfold blocks, banks, Main.dumpram_num_blocks, Main.flashram_num_blocks.
  fold code. clearbody code. clear blocks banks. rewrite ram_banks_lookup.
  split; [reflexivity|].
  do 4 (split; [intros ->; split; reflexivity|]).
  intros H2 H3 H4 H5.
  destruct (Z.eqb_spec code 2); [done|].
  destruct (Z.eqb_spec code 3); [done|].
  destruct (Z.eqb_spec code 4); [done|].
  destruct (Z.eqb_spec code 5); [done|].
  split; [reflexivity|]. split; [reflexivity|].
  intros Ser T w title data. split; reflexivity.
Qed.

Lemma ram_size_table_witness :
  Main.flashram_num_blocks
    (mkCartridgeHeader hdr_zelda (replicate 48 x00) "ZELDA" 3 5 2 109) = 1
  /\ Main.dumpram_num_blocks
       (mkCartridgeHeader hdr_zelda (replicate 48 x00) "ZELDA" 3 5 2 109) = 16
  /\ Main.dumpram_num_blocks
       (mkCartridgeHeader hdr_blank (replicate 48 x00) "" 0 0 0 231) = 0.
Proof.
  pose (zelda := mkCartridgeHeader hdr_zelda (replicate 48 x00) "ZELDA" 3 5 2 109).
  pose (blank := mkCartridgeHeader hdr_blank (replicate 48 x00) "" 0 0 0 231).
  destruct (ram_size_table zelda) as (_ & H2 & _).
  destruct (ram_size_table blank) as (_ & _ & _ & _ & _ & Hother).
  destruct (H2 eq_refl) as [Hbanks Hblocks].
  assert (H0 : forall k : Z, 0 < k -> ram_size blank <> k) by (cbn; lia).
  destruct (Hother (H0 2 eq_refl) (H0 3 eq_refl) (H0 4 eq_refl) (H0 5 eq_refl))
    as (_ & Hnone & _).
  split; [exact Hbanks|]. split; [exact Hblocks | exact Hnone].
Defined.

(** ** Runs against the mock transport *)

Lemma flash_stop_and_wait_witness :
  is_ok (flash (replicate 0x2000 x2a) 1 (mkWorld (mkMock [] [] 32) [])).1 = true
  /\ ops (log (flash (replicate 0x2000 x2a) 1 (mkWorld (mkMock [] [] 32) [])).2)
     = flash_ops 1.
Proof.
  pose (w := mkWorld (mkMock [] [] 32) []).
  assert (Hok : is_ok (flash (replicate 0x2000 x2a) 1 w).1 = true)
    by (vm_compute; reflexivity).
  split; [exact Hok|].
  destruct (flash_stop_and_wait (replicate 0x2000 x2a) 1 w)
    as (t & Hlog & _ & Hfull & _).
  change (log w ++ t) with t in Hlog. fold w. rewrite Hlog. exact (Hfull Hok).
Defined.

Lemma flash_short_write_aborts_witness :
  (flash (replicate 40 x2a) 1 (mkWorld (mkMock [] [] 32) [])).1
  = Raise AssertionError.
Proof.
  pose (w := mkWorld (mkMock [] [] 32) []).
  assert (Hlog : log (flash (replicate 40 x2a) 1 w).2
                 = log w ++ [EvWrite (replicate 32 x2a) 32; EvRead 1 []]
                         ++ EvWrite (replicate 8 x2a) 8 :: [])
    by (vm_compute; reflexivity).
  assert (Hshort : 8 < 32) by lia.
  exact (proj1 (flash_short_write_aborts _ _ _ _ _ _ _ Hlog Hshort)).
Defined.

(** C5, as stated, fails: the one-byte data is sliced into a one-byte chunk,
    the transport accepts that one byte, and the [assert] fails; so does the
    second bank of a data of 0x2000 + 1 bytes, after the first bank went
    through. *)
Lemma flash_short_bank_is_error :
  flash [x01] 1 (mkWorld (mkMock [] [] 32) [])
  = (Raise AssertionError, mkWorld (mkMock [] [x01] 32) [EvWrite [x01] 1])
  /\ let run := flash (replicate 0x2000 x2a ++ [x01]) 2
                      (mkWorld (mkMock [] [] 32) []) in
     run.1 = Raise AssertionError
     /\ length (log run.2) = 514%nat
     /\ last (log run.2) = Some (EvWrite [x01] 1).
Proof. split; [reflexivity|]. vm_compute. repeat split. Qed.

(** * Further properties of the header model *)

Lemma forallb_is_ascii (l : list byte) :
  forallb is_ascii l = true <-> Forall (fun b => byte_to_Z b < 128) l.
Proof.
  induction l as [|b l IH]; cbn [forallb].
  - split; [constructor | reflexivity].
  - rewrite andb_true_iff, Forall_cons, IH. unfold is_ascii.
    by rewrite Z.ltb_lt.
Qed.

Lemma decode_ascii_cases (l : list byte) :
  (Forall (fun b => byte_to_Z b < 128) l
   /\ decode_ascii l = Ok (string_of_list_byte l))
  \/ (~ Forall (fun b => byte_to_Z b < 128) l
      /\ decode_ascii l = Raise UnicodeDecodeError).
Proof.
  unfold decode_ascii. destruct (forallb is_ascii l) eqn:Hall.
  - left. split; [by apply forallb_is_ascii | reflexivity].
  - right. split; [|reflexivity].
    intros Hl. apply forallb_is_ascii in Hl. congruence.
Qed.

Lemma extract_title_first_zero (field : list byte) (k : nat) :
  first_zero_at field k -> extract_title field = decode_ascii (take k field).
Proof.
  intros Hk. unfold extract_title. unfold_bind.
  assert (Hin : x00 ∈ field) by (eapply list_elem_of_lookup_2; apply Hk).
  pose proof Hin as Hz. apply contains_zero_true in Hz. rewrite Hz.
  apply index_zero_found in Hin as [k' Hk']. rewrite Hk'.
  apply index_zero_Ok in Hk'. by rewrite (first_zero_at_unique _ _ _ Hk Hk').
Qed.

Lemma extract_title_no_zero (field : list byte) :
  x00 ∉ field -> extract_title field = decode_ascii (take 15 field).
Proof.
  intros Hno. unfold extract_title. unfold_bind.
  destruct (contains_zero field) eqn:Hz; [|reflexivity].
  apply contains_zero_true in Hz. contradiction.
Qed.

Lemma first_zero_cases (field : list byte) :
  (exists k, first_zero_at field k) \/ x00 ∉ field.
Proof.
  destruct (contains_zero field) eqn:Hz.
  - left. apply contains_zero_true, index_zero_found in Hz as [k Hk].
    exists k. by apply index_zero_Ok.
  - right. intros Hin. apply contains_zero_true in Hin. congruence.
Qed.

Lemma slice_length_le {A} (lo hi : nat) (d : list A) :
  (length (slice lo hi d) <= hi - lo)%nat.
Proof. unfold slice. rewrite length_take. lia. Qed.

(** Where [__extract_title] cuts a field of at most 16 bytes. *)
Lemma title_end_spec (field : list byte) :
  (length field <= 16)%nat ->
  exists title_end,
    (title_end <= 15)%nat
    /\ extract_title field = decode_ascii (take title_end field)
    /\ (x00 ∉ take title_end field)
    /\ (first_zero_at field title_end \/ ((x00 ∉ field) /\ title_end = 15%nat)).
Proof.
  intros Hlen. destruct (first_zero_cases field) as [[k Hk]|Hno].
  - destruct (first_zero_at_take _ _ Hk) as [Hnok Hlt].
    exists k. split; [lia|]. split; [by apply extract_title_first_zero|].
    split; [exact Hnok | by left].
  - exists 15%nat. split; [lia|]. split; [by apply extract_title_no_zero|].
    split; [|by right].
    intros Hin. apply Hno. apply elem_of_take in Hin as (i & Hi & _).
    by eapply list_elem_of_lookup_2.
Qed.

Lemma getitem_lt (d : list byte) (i : nat) :
  (i < length d)%nat -> getitem d i = Ok (byte_at d i).
Proof.
  intros Hi. unfold getitem, byte_at.
  destruct (lookup_lt_is_Some_2 d i Hi) as [b Hb]. rewrite Hb.
  by rewrite (nth_lookup_Some _ _ x00 _ Hb).
Qed.

Lemma byte_to_Z_inj (b b' : byte) : byte_to_Z b = byte_to_Z b' -> b = b'.
Proof.
  unfold byte_to_Z. intros Heq. apply N2Z.inj in Heq.
  pose proof (Byte.of_to_N b) as Hb. rewrite Heq, Byte.of_to_N in Hb.
  congruence.
Qed.

(** The bytes of the title of a header. *)
Lemma title_bytes_spec (hdrdata : list byte) (self : CartridgeHeader) :
  CartridgeHeader_init hdrdata = Ok self ->
  exists l,
    title self = string_of_list_byte l
    /\ l `prefix_of` slice 0x34 0x44 hdrdata
    /\ (length l <= 15)%nat
    /\ (x00 ∉ l)
    /\ Forall (fun b => byte_to_Z b < 128) l.
Proof.
  intros Hinit. apply init_Ok in Hinit as (_ & _ & Ht & _).
  destruct (title_end_spec (slice 0x34 0x44 hdrdata)) as (te & Hte & Heq & Hno & _).
  { apply (slice_length_le 0x34 0x44). }
  rewrite Heq in Ht. exists (take te (slice 0x34 0x44 hdrdata)).
  destruct (decode_ascii_cases (take te (slice 0x34 0x44 hdrdata)))
    as [[Hall Hd]|[_ Hd]]; rewrite Hd in Ht; [|discriminate].
  injection Ht as <-. split; [reflexivity|]. split; [apply prefix_take|].
  split; [rewrite length_take; lia|]. by split.
Qed.

(** X1. A buffer of at least 78 bytes whose first 15 title bytes are ASCII
    always yields a header; its numeric fields are the bytes at offsets 0x47,
    0x48, 0x49 and 0x4D, each in [0, 256), and the logo has 48 bytes. *)
Theorem init_succeeds (hdrdata : list byte) :
  (78 <= length hdrdata)%nat ->
  Forall (fun b => byte_to_Z b < 128) (take 15 (slice 0x34 0x44 hdrdata)) ->
  exists self,
    CartridgeHeader_init hdrdata = Ok self
    /\ data self = hdrdata
    /\ length (nintendo_logo self) = 48%nat
    /\ cart_type self = byte_at hdrdata 0x47
    /\ rom_size self = byte_at hdrdata 0x48
    /\ ram_size self = byte_at hdrdata 0x49
    /\ hdr_cksm self = byte_at hdrdata 0x4D
    /\ 0 <= cart_type self < 256 /\ 0 <= rom_size self < 256
    /\ 0 <= ram_size self < 256 /\ 0 <= hdr_cksm self < 256.
Proof.
  intros Hlen Hascii.
  destruct (title_end_spec (slice 0x34 0x44 hdrdata)) as (te & Hte & Heq & _).
  { apply (slice_length_le 0x34 0x44). }
  assert (Hdec : extract_title (slice 0x34 0x44 hdrdata)
                 = Ok (string_of_list_byte (take te (slice 0x34 0x44 hdrdata)))).
  { rewrite Heq.
    destruct (decode_ascii_cases (take te (slice 0x34 0x44 hdrdata)))
      as [[_ Hd]|[Hnot _]]; [exact Hd|].
    exfalso. apply Hnot.
    replace te with (te `min` 15)%nat by lia. rewrite <- take_take.
    by apply Forall_take. }
  unfold CartridgeHeader_init. unfold_bind. rewrite Hdec.
  rewrite !getitem_lt by lia.
  eexists. split; [reflexivity|]. cbn [data nintendo_logo cart_type rom_size
                                       ram_size hdr_cksm].
  split; [reflexivity|]. split; [by rewrite slice_length by lia|].
  repeat split; apply byte_to_Z_range.
Qed.

Lemma init_succeeds_witness :
  exists self, CartridgeHeader_init hdr_zelda = Ok self /\ rom_size self = 5.
Proof.
  assert (Hlen : (78 <= length hdr_zelda)%nat) by (cbv; lia).
  assert (Hascii : Forall (fun b => byte_to_Z b < 128)
                          (take 15 (slice 0x34 0x44 hdr_zelda))).
  { apply forallb_is_ascii. reflexivity. }
  destruct (init_succeeds hdr_zelda Hlen Hascii) as (self & Hinit & _ & _ & _ & Hrom & _).
  exists self. split; [exact Hinit|]. rewrite Hrom. reflexivity.
Defined.

(** X2. A byte above 0x7F among the first 15 title bytes, with no zero byte
    before it, makes construction fail with [UnicodeDecodeError], whatever
    the length of the buffer: the title is decoded before any field is
    indexed. *)
Theorem init_non_ascii_title (hdrdata : list byte) (i : nat) (b : byte) :
  (i < 15)%nat ->
  slice 0x34 0x44 hdrdata !! i = Some b ->
  128 <= byte_to_Z b ->
  (forall j, (j < i)%nat -> slice 0x34 0x44 hdrdata !! j <> Some x00) ->
  CartridgeHeader_init hdrdata = Raise UnicodeDecodeError.
Proof.
  intros Hi Hb Hhigh Hbefore.
  destruct (title_end_spec (slice 0x34 0x44 hdrdata)) as (te & Hte & Heq & _ & Hcases).
  { apply (slice_length_le 0x34 0x44). }
  assert (Hlt : (i < te)%nat).
  { destruct Hcases as [[Hz Hfirst]|[_ ->]]; [|exact Hi].
    destruct (Nat.lt_trichotomy te i) as [Hc|[Hc|Hc]]; [| |exact Hc].
    - exfalso. by apply (Hbefore te).
    - subst te. rewrite Hb in Hz. injection Hz as ->. cbv in Hhigh. by destruct Hhigh. }
  assert (Hdec : extract_title (slice 0x34 0x44 hdrdata) = Raise UnicodeDecodeError).
  { rewrite Heq.
    destruct (decode_ascii_cases (take te (slice 0x34 0x44 hdrdata)))
      as [[Hall _]|[_ Hd]]; [|exact Hd].
    exfalso. rewrite Forall_lookup in Hall.
    specialize (Hall i b). rewrite lookup_take_lt in Hall by exact Hlt.
    specialize (Hall Hb). lia. }
  unfold CartridgeHeader_init. unfold_bind. by rewrite Hdec.
Qed.

Lemma init_non_ascii_title_witness :
  CartridgeHeader_init (replicate 0x34 x00 ++ [x41; x80]) = Raise UnicodeDecodeError.
Proof.
  apply (init_non_ascii_title _ 1 x80); [lia | reflexivity | cbv; discriminate |].
  intros j Hj. destruct j as [|j]; [discriminate | lia].
Defined.

Lemma first_zero_at_agree (field field' : list byte) (k : nat) :
  take (S k) field' = take (S k) field ->
  first_zero_at field k -> first_zero_at field' k.
Proof.
  intros Heq [Hk Hbefore].
  assert (Hlook : forall j, (j < S k)%nat -> field' !! j = field !! j).
  { intros j Hj. rewrite <- (lookup_take_lt field' (S k)) by exact Hj.
    rewrite Heq. by apply lookup_take_lt. }
  split; [by rewrite Hlook by lia|].
  intros j Hj. rewrite Hlook by lia. by apply Hbefore.
Qed.

(** X3. [__extract_title] reads nothing after the first zero byte: two
    fields that agree up to and including it give the same result, so bytes
    after the terminator, ASCII or not, never matter. *)
Theorem extract_title_ignores_after_terminator (field field' : list byte) (k : nat) :
  first_zero_at field k ->
  take (S k) field' = take (S k) field ->
  extract_title field' = extract_title field.
Proof.
  intros Hk Heq.
  rewrite (extract_title_first_zero field k Hk).
  rewrite (extract_title_first_zero field' k (first_zero_at_agree _ _ _ Heq Hk)).
  f_equal.
  replace k with (k `min` S k)%nat by lia.
  by rewrite <- !take_take, Heq.
Qed.

Lemma extract_title_ignores_after_terminator_witness :
  extract_title [x41; x42; x00; xff; xc0] = Ok "AB"%string.
Proof.
  assert (Hk : first_zero_at [x41; x42; x00] 2).
  { split; [reflexivity|]. intros j Hj.
    do 2 (destruct j as [|j]; [discriminate|]). lia. }
  rewrite (extract_title_ignores_after_terminator
             [x41; x42; x00] [x41; x42; x00; xff; xc0] 2 Hk eq_refl).
  reflexivity.
Defined.

Lemma extract_title_take15 (field : list byte) :
  (length field <= 16)%nat ->
  extract_title field = extract_title (take 15 field).
Proof.
  intros Hlen. destruct (first_zero_cases field) as [[k Hk]|Hno].
  - destruct (first_zero_at_take _ _ Hk) as [Hnok Hlt].
    destruct (decide (k = 15%nat)) as [->|Hne].
    + rewrite (extract_title_first_zero _ _ Hk).
      rewrite (extract_title_no_zero _ Hnok). by rewrite take_take.
    + assert (Hk' : first_zero_at (take 15 field) k).
      { destruct Hk as [Hk Hbefore]. split.
        - by rewrite lookup_take_lt by lia.
        - intros j Hj. rewrite lookup_take_lt by lia. by apply Hbefore. }
      rewrite (extract_title_first_zero _ _ Hk), (extract_title_first_zero _ _ Hk').
      rewrite take_take. f_equal. f_equal. lia.
  - assert (Hno' : x00 ∉ take 15 field).
    { intros Hin. apply Hno. apply elem_of_take in Hin as (i & Hi & _).
      by eapply list_elem_of_lookup_2. }
    rewrite (extract_title_no_zero _ Hno), (extract_title_no_zero _ Hno').
    by rewrite take_take.
Qed.

(** X4. The byte at offset 0x43, the 16th byte of the title field, never
    reaches the title nor decides whether construction succeeds: replacing it
    changes the stored buffer and nothing else. *)
Theorem init_ignores_byte_0x43 (hdrdata : list byte) (b : byte) :
  match CartridgeHeader_init hdrdata with
  | Ok self =>
      CartridgeHeader_init (<[0x43%nat := b]> hdrdata)
      = Ok (mkCartridgeHeader (<[0x43%nat := b]> hdrdata) (nintendo_logo self)
                              (title self) (cart_type self) (rom_size self)
                              (ram_size self) (hdr_cksm self))
  | Raise e => CartridgeHeader_init (<[0x43%nat := b]> hdrdata) = Raise e
  end.
Proof.
  assert (Htitle : extract_title (slice 0x34 0x44 (<[0x43%nat := b]> hdrdata))
                   = extract_title (slice 0x34 0x44 hdrdata)).
  { rewrite (extract_title_take15 (slice 0x34 0x44 (<[0x43%nat := b]> hdrdata)))
      by apply (slice_length_le 0x34 0x44).
    rewrite (extract_title_take15 (slice 0x34 0x44 hdrdata))
      by apply (slice_length_le 0x34 0x44).
    f_equal. unfold slice. rewrite !take_take.
    rewrite drop_insert_ge by lia. by rewrite take_insert_ge by lia. }
  assert (Hlogo : slice 0x4 0x34 (<[0x43%nat := b]> hdrdata) = slice 0x4 0x34 hdrdata).
  { unfold slice. rewrite drop_insert_ge by lia. by rewrite take_insert_ge by lia. }
  assert (Hget : forall i, (0x43 < i)%nat ->
                           getitem (<[0x43%nat := b]> hdrdata) i = getitem hdrdata i).
  { intros i Hi. unfold getitem. by rewrite list_lookup_insert_ne by lia. }
  unfold CartridgeHeader_init. unfold_bind.
  rewrite Htitle, Hlogo.
  rewrite (Hget 0x47%nat), (Hget 0x48%nat), (Hget 0x49%nat), (Hget 0x4D%nat) by lia.
  clear Htitle Hlogo Hget.
  destruct (extract_title (slice 0x34 0x44 hdrdata)) as [t|e]; [|exact eq_refl].
  destruct (getitem hdrdata 0x47) as [c|e]; [|exact eq_refl].
  destruct (getitem hdrdata 0x48) as [ro|e]; [|exact eq_refl].
  destruct (getitem hdrdata 0x49) as [ra|e]; [|exact eq_refl].
  destruct (getitem hdrdata 0x4D) as [ck|e]; exact eq_refl.
Qed.

(** X5. Title extraction is idempotent: extracting a title again from the
    bytes of the title of a header gives that title. *)
Theorem extract_title_idempotent (hdrdata : list byte) (self : CartridgeHeader) :
  CartridgeHeader_init hdrdata = Ok self ->
  extract_title (list_byte_of_string (title self)) = Ok (title self).
Proof.
  intros Hinit.
  destruct (title_bytes_spec _ _ Hinit) as (l & -> & _ & Hlen & Hno & Hascii).
  rewrite list_byte_of_string_of_list_byte.
  rewrite (extract_title_no_zero _ Hno), take_ge by lia.
  destruct (decode_ascii_cases l) as [[_ Hd]|[Hnot _]]; [exact Hd | contradiction].
Qed.

Lemma extract_title_idempotent_witness :
  extract_title [x5a; x45; x4c; x44; x41] = Ok "ZELDA"%string.
Proof.
  exact (extract_title_idempotent
           hdr_zelda
           (mkCartridgeHeader hdr_zelda (replicate 48 x00) "ZELDA" 3 5 2 109)
           eq_refl).
Defined.

(** X6. The title of a header has at most 15 characters, each of them an
    ASCII character other than NUL, and its bytes are a prefix of the title
    field, for a buffer of any length. *)
Theorem title_is_ascii (hdrdata : list byte) (self : CartridgeHeader) :
  CartridgeHeader_init hdrdata = Ok self ->
  (String.length (title self) <= 15)%nat
  /\ Forall (fun b => 0 < byte_to_Z b < 128) (list_byte_of_string (title self))
  /\ list_byte_of_string (title self) `prefix_of` slice 0x34 0x44 hdrdata.
Proof.
  intros Hinit.
  destruct (title_bytes_spec _ _ Hinit) as (l & -> & Hpre & Hlen & Hno & Hascii).
  rewrite string_of_list_byte_length, list_byte_of_string_of_list_byte.
  split; [exact Hlen|]. split; [|exact Hpre].
  apply Forall_forall. intros b Hb.
  pose proof (proj1 (Forall_forall _ _) Hascii b Hb) as Hlt.
  pose proof (byte_to_Z_range b) as Hrange.
  cbv beta in Hlt |- *.
  assert (Hne : byte_to_Z b <> 0); [|lia].
  intros H0. apply Hno. by rewrite <- (byte_to_Z_inj b x00 H0).
Qed.

Lemma title_is_ascii_witness :
  Forall (fun b => 0 < byte_to_Z b < 128) [x5a; x45; x4c; x44; x41].
Proof.
  exact (proj1 (proj2 (title_is_ascii
                         hdr_zelda
                         (mkCartridgeHeader hdr_zelda (replicate 48 x00)
                                            "ZELDA" 3 5 2 109)
                         eq_refl))).
Defined.

(** ** The checksum *)

Lemma byte_sum_app (l1 l2 : list byte) :
  byte_sum (l1 ++ l2) = byte_sum l1 + byte_sum l2.
Proof.
  unfold byte_sum. induction l1 as [|b l1 IH]; cbn [app foldr]; [lia|].
  rewrite IH. lia.
Qed.

Lemma byte_sum_insert (l : list byte) (i : nat) (b b' : byte) :
  l !! i = Some b ->
  byte_sum (<[i := b']> l) = byte_sum l - byte_to_Z b + byte_to_Z b'.
Proof.
  revert i. induction l as [|b0 l IH]; intros i Hi; [done|].
  destruct i as [|i].
  - injection Hi as ->. change (<[0%nat := b']> (b :: l)) with (b' :: l).
    unfold byte_sum. cbn [foldr]. lia.
  - change (<[S i := b']> (b0 :: l)) with (b0 :: <[i := b']> l).
    change (byte_sum (b0 :: <[i := b']> l))
      with (byte_to_Z b0 + byte_sum (<[i := b']> l)).
    change (byte_sum (b0 :: l)) with (byte_to_Z b0 + byte_sum l).
    rewrite (IH i Hi). lia.
Qed.

Lemma fold_checksum_range (l : list byte) (x0 : Z) :
  0 <= x0 < 256 ->
  0 <= fold_left (fun x b => (x - byte_to_Z b - 1) mod 256) l x0 < 256.
Proof.
  revert x0. induction l as [|b l IH]; intros x0 Hx0; cbn [fold_left]; [exact Hx0|].
  apply IH. apply Z.mod_pos_bound. lia.
Qed.

(** The loop of [valid] in closed form: minus the sum of the bytes, minus
    their number, modulo 256. *)
Lemma fold_checksum_sum (l : list byte) (x0 : Z) :
  fold_left (fun x b => (x - byte_to_Z b - 1) mod 256) l x0 mod 256
  = (x0 - byte_sum l - Z.of_nat (length l)) mod 256.
Proof.
  revert x0. induction l as [|b l IH]; intros x0.
  - cbn. f_equal. lia.
  - cbn [fold_left]. rewrite IH.
    replace ((x0 - byte_to_Z b - 1) mod 256 - byte_sum l - Z.of_nat (length l))
      with ((x0 - byte_to_Z b - 1) mod 256 - (byte_sum l + Z.of_nat (length l)))
      by lia.
    rewrite Zminus_mod_idemp_l. f_equal.
    unfold byte_sum. cbn [foldr length]. lia.
Qed.

Lemma valid_sum (self : CartridgeHeader) :
  0 <= hdr_cksm self < 256 ->
  valid self = true
  <-> (byte_sum (slice 0x34 0x4D (data self))
       + Z.of_nat (length (slice 0x34 0x4D (data self)))
       + hdr_cksm self) mod 256 = 0.
Proof.
  intros Hck. unfold valid.
  pose proof (fold_checksum_range (slice 0x34 0x4D (data self)) 0 ltac:(lia)) as Hrange.
  pose proof (fold_checksum_sum (slice 0x34 0x4D (data self)) 0) as Hsum.
  rewrite Z.mod_small in Hsum by exact Hrange.
  rewrite Z.eqb_eq, Hsum.
  set (s := byte_sum _). set (n := Z.of_nat _). clearbody s n.
  clear Hsum Hrange. Z.to_euclidean_division_equations. lia.
Qed.

(** X7. The header checksum in closed form: a header built from a buffer of
    at least 78 bytes is valid if and only if the sum of the 25 bytes at
    offsets [0x34, 0x4D), plus the checksum byte, plus 25, is a multiple of
    256. *)
Theorem valid_iff_sum (hdrdata : list byte) (self : CartridgeHeader) :
  (78 <= length hdrdata)%nat ->
  CartridgeHeader_init hdrdata = Ok self ->
  valid self = true
  <-> (byte_sum (slice 0x34 0x4D hdrdata) + byte_at hdrdata 0x4D + 25) mod 256 = 0.
Proof.
  intros Hlen Hinit.
  apply init_Ok in Hinit as (Hdata & _ & _ & _ & _ & _ & Hck).
  pose proof (getitem_range _ _ _ Hck) as Hrange.
  apply getitem_Ok in Hck as [_ Hck].
  rewrite (valid_sum self Hrange), Hdata, Hck.
  rewrite slice_length by lia. change (Z.of_nat (0x4D - 0x34)) with 25.
  by replace (byte_sum (slice 0x34 0x4D hdrdata) + byte_at hdrdata 0x4D + 25)
    with (byte_sum (slice 0x34 0x4D hdrdata) + 25 + byte_at hdrdata 0x4D) by lia.
Qed.

Lemma valid_iff_sum_witness :
  (byte_sum (slice 0x34 0x4D hdr_zelda) + byte_at hdr_zelda 0x4D + 25) mod 256 = 0.
Proof.
  assert (Hlen : (78 <= length hdr_zelda)%nat) by (cbv; lia).
  exact (proj1 (valid_iff_sum
                  hdr_zelda
                  (mkCartridgeHeader hdr_zelda (replicate 48 x00) "ZELDA" 3 5 2 109)
                  Hlen eq_refl) eq_refl).
Defined.

Lemma byte_sum_slice_insert (lo hi i : nat) (h : list byte) (b b' : byte) :
  (lo <= i < hi)%nat ->
  h !! i = Some b ->
  byte_sum (slice lo hi (<[i := b']> h))
  = byte_sum (slice lo hi h) - byte_to_Z b + byte_to_Z b'.
Proof.
  intros Hi Hb. unfold slice.
  rewrite drop_insert_ge by lia. rewrite take_insert_lt by lia.
  apply byte_sum_insert.
  rewrite lookup_take_lt by lia. rewrite lookup_drop.
  by replace (lo + (i - lo))%nat with i by lia.
Qed.

(** Validity over the 26 bytes at offsets [0x34, 0x4E), the checksum byte
    included. *)
Lemma valid_sum26 (hdrdata : list byte) (self : CartridgeHeader) :
  (78 <= length hdrdata)%nat ->
  CartridgeHeader_init hdrdata = Ok self ->
  valid self = true
  <-> (byte_sum (slice 0x34 0x4E hdrdata) + 25) mod 256 = 0.
Proof.
  intros Hlen Hinit.
  apply init_Ok in Hinit as (Hdata & _ & _ & _ & _ & _ & Hck).
  pose proof (getitem_range _ _ _ Hck) as Hrange.
  rewrite (valid_sum self Hrange), Hdata.
  rewrite slice_length by lia. change (Z.of_nat (0x4D - 0x34)) with 25.
  unfold getitem in Hck. destruct (hdrdata !! 0x4D%nat) as [c|] eqn:Hc; [|discriminate].
  injection Hck as <-.
  assert (Hsplit : slice 0x34 0x4E hdrdata = slice 0x34 0x4D hdrdata ++ [c]).
  { unfold slice. change (0x4E - 0x34)%nat with (S (0x4D - 0x34)).
    apply take_S_r. rewrite lookup_drop. exact Hc. }
  rewrite Hsplit, byte_sum_app. unfold byte_sum at 3. cbn [foldr].
  by replace (byte_sum (slice 0x34 0x4D hdrdata) + 25 + byte_to_Z c)
    with (byte_sum (slice 0x34 0x4D hdrdata) + (byte_to_Z c + 0) + 25) by lia.
Qed.

(** X8. The checksum detects every change of a single byte: if a header is
    valid and one byte at an offset in [0x34, 0x4D] (checksum included) is
    replaced by a different byte, a header built from the changed buffer is
    not valid. *)
Theorem valid_detects_single_byte_change
        (hdrdata : list byte) (self self' : CartridgeHeader)
        (i : nat) (b b' : byte) :
  (78 <= length hdrdata)%nat ->
  CartridgeHeader_init hdrdata = Ok self ->
  valid self = true ->
  (0x34 <= i <= 0x4D)%nat ->
  hdrdata !! i = Some b ->
  b' <> b ->
  CartridgeHeader_init (<[i := b']> hdrdata) = Ok self' ->
  valid self' = false.
Proof.
  intros Hlen Hinit Hvalid Hi Hb Hne Hinit'.
  apply (valid_sum26 _ _ Hlen Hinit) in Hvalid.
  destruct (valid self') eqn:Hvalid'; [|reflexivity]. exfalso.
  apply (valid_sum26 (<[i := b']> hdrdata) self') in Hvalid';
    [|by rewrite length_insert|exact Hinit'].
  rewrite (byte_sum_slice_insert _ _ _ _ b b') in Hvalid' by (done || lia).
  assert (Hdiff : byte_to_Z b' <> byte_to_Z b)
    by (intros Heq; by apply Hne, byte_to_Z_inj).
  pose proof (byte_to_Z_range b). pose proof (byte_to_Z_range b').
  set (s := byte_sum _) in *. clearbody s.
  Z.to_euclidean_division_equations. lia.
Qed.

Lemma valid_detects_single_byte_change_witness :
  exists self', CartridgeHeader_init (<[0x48%nat := x06]> hdr_zelda) = Ok self'
                /\ valid self' = false.
Proof.
  pose (self := mkCartridgeHeader hdr_zelda (replicate 48 x00) "ZELDA" 3 5 2 109).
  pose (self' := mkCartridgeHeader (<[0x48%nat := x06]> hdr_zelda)
                                   (replicate 48 x00) "ZELDA" 3 6 2 109).
  assert (Hlen : (78 <= length hdr_zelda)%nat) by (cbv; lia).
  assert (Hi : (0x34 <= 0x48 <= 0x4D)%nat) by lia.
  assert (Hne : x06 <> x05) by discriminate.
  exists self'. split; [reflexivity|].
  exact (valid_detects_single_byte_change hdr_zelda self self' 0x48 x05 x06
           Hlen eq_refl eq_refl Hi eq_refl Hne eq_refl).
Defined.

Lemma init_set_checksum (hdrdata : list byte) (self : CartridgeHeader) (b : byte) :
  (78 <= length hdrdata)%nat ->
  CartridgeHeader_init hdrdata = Ok self ->
  CartridgeHeader_init (<[0x4D%nat := b]> hdrdata)
  = Ok (mkCartridgeHeader (<[0x4D%nat := b]> hdrdata) (nintendo_logo self)
                          (title self) (cart_type self) (rom_size self)
                          (ram_size self) (byte_to_Z b)).
Proof.
  intros Hlen Hinit.
  apply init_Ok in Hinit as (_ & Hlogo & Ht & H47 & H48 & H49 & _).
  assert (Hfield : slice 0x34 0x44 (<[0x4D%nat := b]> hdrdata) = slice 0x34 0x44 hdrdata).
  { unfold slice. rewrite drop_insert_ge by lia. by rewrite take_insert_ge by lia. }
  assert (Hlogo' : slice 0x4 0x34 (<[0x4D%nat := b]> hdrdata) = slice 0x4 0x34 hdrdata).
  { unfold slice. rewrite drop_insert_ge by lia. by rewrite take_insert_ge by lia. }
  assert (Hget : forall i, (i < 0x4D)%nat ->
                           getitem (<[0x4D%nat := b]> hdrdata) i = getitem hdrdata i).
  { intros i Hi. unfold getitem. by rewrite list_lookup_insert_ne by lia. }
  assert (Hck : getitem (<[0x4D%nat := b]> hdrdata) 0x4D = Ok (byte_to_Z b)).
  { unfold getitem. by rewrite list_lookup_insert_eq by lia. }
  unfold CartridgeHeader_init. unfold_bind.
  rewrite Hfield, Hlogo', Ht, (Hget 0x47%nat), (Hget 0x48%nat), (Hget 0x49%nat) by lia.
  rewrite H47, H48, H49, Hck, Hlogo. reflexivity.
Qed.

(** X9. Exactly one checksum byte makes a header valid: for every buffer of
    at least 78 bytes from which a header is built, there is a byte, the
    value the loop of [valid] computes, that stored at offset 0x4D gives a
    valid header with the same title, and any byte that does so is that
    one. *)
Theorem checksum_byte_exists_unique (hdrdata : list byte) (self : CartridgeHeader) :
  (78 <= length hdrdata)%nat ->
  CartridgeHeader_init hdrdata = Ok self ->
  exists b,
    (exists self', CartridgeHeader_init (<[0x4D%nat := b]> hdrdata) = Ok self'
                   /\ valid self' = true /\ title self' = title self)
    /\ (forall b2 self2,
           CartridgeHeader_init (<[0x4D%nat := b2]> hdrdata) = Ok self2 ->
           valid self2 = true -> b2 = b).
Proof.
  intros Hlen Hinit.
  set (x := fold_left (fun x b => (x - byte_to_Z b - 1) mod 256)
                      (slice 0x34 0x4D hdrdata) 0).
  assert (Hx : 0 <= x < 256) by (apply fold_checksum_range; lia).
  assert (Hvalid : forall b2, valid (mkCartridgeHeader (<[0x4D%nat := b2]> hdrdata)
                                       (nintendo_logo self) (title self)
                                       (cart_type self) (rom_size self)
                                       (ram_size self) (byte_to_Z b2))
                              = (x =? byte_to_Z b2)).
  { intros b2. unfold valid. cbn [data hdr_cksm]. unfold slice.
    rewrite drop_insert_ge by lia. by rewrite take_insert_ge by lia. }
  destruct (Byte.of_N (Z.to_N x)) as [b|] eqn:Hb.
  2:{ apply Byte.of_N_None_iff in Hb. lia. }
  apply Byte.to_of_N in Hb.
  assert (Hbx : byte_to_Z b = x) by (unfold byte_to_Z; rewrite Hb; lia).
  exists b. split.
  - eexists. split; [by apply init_set_checksum|].
    split; [|reflexivity]. rewrite Hvalid, Hbx. apply Z.eqb_refl.
  - intros b2 self2 Hinit2 Hvalid2.
    rewrite (init_set_checksum _ _ b2 Hlen Hinit) in Hinit2.
    injection Hinit2 as <-. rewrite Hvalid in Hvalid2.
    apply Z.eqb_eq in Hvalid2. apply byte_to_Z_inj. congruence.
Qed.

Lemma checksum_byte_exists_unique_witness :
  exists b self',
    CartridgeHeader_init (<[0x4D%nat := b]> (replicate 80 x00)) = Ok self'
    /\ valid self' = true.
Proof.
  assert (Hlen : (78 <= length (replicate 80 x00))%nat) by (cbv; lia).
  destruct (checksum_byte_exists_unique
              (replicate 80 x00)
              (mkCartridgeHeader (replicate 80 x00) (replicate 48 x00) "" 0 0 0 0)
              Hlen eq_refl) as (b & (self' & Hinit' & Hvalid' & _) & _).
  exists b, self'. split; [exact Hinit' | exact Hvalid'].
Defined.

(** * Further properties of [flash] *)

Lemma length_flash_ops (n : nat) : length (flash_ops n) = (513 * n)%nat.
Proof.
  induction n as [|n IH]; [reflexivity|].
  change (flash_ops (S n)) with (bank_ops ++ flash_ops n).
  rewrite length_app, IH. change (length bank_ops) with 513%nat. lia.
Qed.

Section FlashRuns.
Context {Ser : Type} `{Transport Ser}.

Lemma flash_sent_ok (data : list byte) (num_banks : Z) (w : world Ser) :
  exists t m,
    log (flash data num_banks w).2 = log w ++ t
    /\ sent_bytes t = take m data
    /\ (is_ok (flash data num_banks w).1 = true ->
        m = (Z.to_nat num_banks * 0x2000)%nat).
Proof.
  unfold flash, range.
  destruct (for_sent 0x2000 (flash_bank data) data (flash_bank_sent data)
                     (Z.to_nat num_banks) 0%nat w)
    as (t & m & Hlog & Hsent & Hm).
  exists t, m. split; [exact Hlog|]. split; [|exact Hm].
  by rewrite Hsent, drop_0.
Qed.

(** X10. A run of [flash] that completes has sent exactly the first
    [num_banks * 0x2000] bytes of [data], in order, in writes that were all
    taken whole, and has made exactly [513 * num_banks] calls on the
    transport. *)
Theorem flash_complete (data : list byte) (num_banks : Z) (w : world Ser) :
  is_ok (flash data num_banks w).1 = true ->
  exists t,
    log (flash data num_banks w).2 = log w ++ t
    /\ sent_bytes t = take (Z.to_nat num_banks * 0x2000) data
    /\ length t = (513 * Z.to_nat num_banks)%nat
    /\ Forall accepted t.
Proof.
  intros Hok.
  destruct (flash_sent_ok data num_banks w) as (t & m & Hlog & Hsent & Hm).
  destruct (flash_outcome data num_banks w) as (t' & Hlog' & Hout).
  assert (t' = t) as -> by (rewrite Hlog in Hlog'; by apply app_inv_head in Hlog').
  exists t. split; [exact Hlog|]. split; [by rewrite Hsent, (Hm Hok)|].
  destruct (flash data num_banks w).1 as [[]|e]; [|discriminate].
  destruct Hout as [Hops Hacc]. split; [|exact Hacc].
  rewrite <- length_flash_ops, <- Hops. unfold ops. by rewrite length_fmap.
Qed.

Lemma for_all_ok (body : nat -> io Ser unit) (xs : list nat) :
  (forall x w, x ∈ xs -> is_ok (body x w).1 = true) ->
  forall w, is_ok (for_ xs body w).1 = true.
Proof.
  induction xs as [|x xs IH]; intros Hbody w; [reflexivity|].
  rewrite for_cons. pose proof (Hbody x w ltac:(left)) as Hx.
  destruct (body x w) as [[[]|e] w1]; [|discriminate].
  apply IH. intros x' w' Hin. apply Hbody. by right.
Qed.

Lemma flash_chunk_ok (bank : list byte) (j : nat) (w : world Ser) :
  accepting Ser ->
  ((j + 1) * 32 <= length bank)%nat ->
  is_ok (flash_chunk bank j w).1 = true.
Proof.
  intros Hacc Hlen. rewrite flash_chunk_run. cbv zeta.
  rewrite Hacc; [reflexivity|].
  rewrite slice_chunk, length_take, length_drop. lia.
Qed.

Lemma flash_bank_ok (data : list byte) (i : nat) (w : world Ser) :
  accepting Ser ->
  ((i + 1) * 0x2000 <= length data)%nat ->
  is_ok (flash_bank data i w).1 = true.
Proof.
  intros Hacc Hlen. unfold flash_bank. rewrite slice_chunk.
  set (bank := take 0x2000 (drop (i * 0x2000) data)).
  assert (Hbank : length bank = 0x2000%nat).
  { unfold bank. rewrite length_take, length_drop. lia. }
  pose proof (for_all_ok (flash_chunk bank) (seq 0 256)) as Hfor.
  specialize (Hfor (fun j w' Hin => flash_chunk_ok bank j w' Hacc
                       ltac:(apply elem_of_seq in Hin; rewrite Hbank; lia)) w).
  unfold_bind.
  destruct (for_ (seq 0 256) (flash_chunk bank) w) as [[[]|e] w1]; [|discriminate].
  unfold read. by destruct (ser_read 1 (port w1)).
Qed.

Lemma flash_ok_of_length (data : list byte) (num_banks : Z) (w : world Ser) :
  accepting Ser ->
  (Z.to_nat num_banks * 0x2000 <= length data)%nat ->
  is_ok (flash data num_banks w).1 = true.
Proof.
  intros Hacc Hlen. unfold flash, range. apply for_all_ok. intros i w' Hin.
  apply elem_of_seq in Hin. apply flash_bank_ok; [exact Hacc|]. nia.
Qed.

(** X11. With a transport that takes a full 32-byte chunk whole and never
    reports more bytes than it was given, [flash] completes if and only if
    [data] holds at least [num_banks] banks of 0x2000 bytes. *)
Theorem flash_succeeds_iff (data : list byte) (num_banks : Z) (w : world Ser) :
  honest Ser -> accepting Ser ->
  is_ok (flash data num_banks w).1 = true
  <-> (Z.to_nat num_banks * 0x2000 <= length data)%nat.
Proof.
  intros Hhonest Hacc. split; [|by apply flash_ok_of_length].
  unfold flash, range. intros Hok.
  destruct (decide (Z.to_nat num_banks = 0%nat)) as [->|Hpos]; [lia|].
  destruct (for_Ok_body _ _ _ Hok (Z.to_nat num_banks - 1)%nat) as [w1 Hlast].
  { apply elem_of_seq. lia. }
  apply (flash_bank_Ok_full _ _ _ Hhonest) in Hlast. lia.
Qed.

(** X17. The RAM dump and the RAM flash agree on sizes: with a transport
    whose reads return as many bytes as asked for, the image that the RAM
    dump of a cartridge collects has exactly [0x2000] bytes per bank that the
    RAM flash of the same cartridge sends, so with a transport that takes
    full chunks whole, flashing that image completes. *)
Theorem ram_dump_can_be_flashed (header : CartridgeHeader) (p : Ser) (w : world Ser) :
  blocking Ser -> accepting Ser ->
  let image :=
    concat (ser_reads (Z.to_nat (Main.dumpram_num_blocks header)) p).1 in
  Z.of_nat (length image) = 0x2000 * Main.flashram_num_blocks header
  /\ is_ok (flash image (Main.flashram_num_blocks header) w).1 = true.
Proof.
  intros Hblock Hacc image.
  assert (Hbanks : 0 <= Main.flashram_num_blocks header).
  { unfold Main.flashram_num_blocks. rewrite ram_banks_lookup.
    repeat (destruct (_ =? _); [lia|]). lia. }
  assert (Hlen : length image
                 = (512 * Z.to_nat (Main.dumpram_num_blocks header))%nat).
  { unfold image. rewrite (concat_length_uniform 512).
    - by rewrite ser_reads_length.
    - clear -Hblock. generalize (Z.to_nat (Main.dumpram_num_blocks header)).
      intros n. revert p. induction n as [|n IH]; intros p; [constructor|].
      cbn [ser_reads]. pose proof (Hblock 512%nat p) as Hb.
      destruct (ser_read 512 p) as [block p1]. specialize (IH p1).
      destruct (ser_reads n p1) as [blocks p2]. cbn [fst] in *. by constructor. }
  assert (Hblocks : Main.dumpram_num_blocks header
                    = Main.flashram_num_blocks header * 16) by reflexivity.
  split; [rewrite Hlen, Hblocks; lia|].
  apply flash_ok_of_length; [exact Hacc|]. rewrite Hlen, Hblocks. lia.
Qed.

End FlashRuns.

Lemma zero_device_honest : honest unit.
Proof. intros sent p. cbn. lia. Qed.

Lemma zero_device_accepting : accepting unit.
Proof. intros sent p Hlen. cbn. lia. Qed.

Lemma zero_device_blocking : blocking unit.
Proof. intros size p. cbn. apply length_replicate. Qed.

Lemma flash_complete_witness :
  exists t,
    log (flash (replicate 0x2000 x2a) 1 (mkWorld (mkMock [] [] 32) [])).2 = t
    /\ sent_bytes t = replicate 0x2000 x2a
    /\ length t = 513%nat.
Proof.
  pose (w := mkWorld (mkMock [] [] 32) []).
  assert (Hok : is_ok (flash (replicate 0x2000 x2a) 1 w).1 = true)
    by (vm_compute; reflexivity).
  destruct (flash_complete (replicate 0x2000 x2a) 1 w Hok)
    as (t & Hlog & Hsent & Hlen & _).
  exists t. split; [exact Hlog|]. split; [|exact Hlen].
  rewrite Hsent. apply take_ge. by rewrite length_replicate.
Defined.

Lemma flash_succeeds_iff_witness :
  is_ok (flash (replicate 0x2000 x2a) 1 (mkWorld tt [])).1 = true.
Proof.
  apply (flash_succeeds_iff (replicate 0x2000 x2a) 1 (mkWorld tt [])
                            zero_device_honest zero_device_accepting).
  rewrite length_replicate. cbn. lia.
Defined.

(** * Properties of [main] *)

Section MainRuns.
Context {Ser : Type} `{Transport Ser}.

Lemma when_given_run (arg : option string) (body : string -> io Ser unit)
      (w : world Ser) :
  when_given arg body w
  = if truthy arg then body (default ""%string arg) w else (Ok tt, w).
Proof.
  destruct arg as [s|]; [|reflexivity].
  unfold when_given. by destruct (truthy (Some s)).
Qed.

(** A command followed by a dump, call by call. *)
Lemma command_dump_run (cmd : list byte) (name : string) (n : Z) (w : world Ser) :
  (write cmd ≫= λ _, dump name n) w
  = (Ok tt,
     mkWorld (ser_reads (Z.to_nat n) (ser_write cmd (port w)).2).2
             (log w ++ EvWrite cmd (ser_write cmd (port w)).1
                  :: (EvRead 512 <$> (ser_reads (Z.to_nat n) (ser_write cmd (port w)).2).1)
                  ++ [EvWriteBytes name
                        (concat (ser_reads (Z.to_nat n) (ser_write cmd (port w)).2).1)])).
Proof.
  unfold_bind. unfold write at 1.
  destruct (ser_write cmd (port w)) as [written p1]. cbn [fst snd].
  unfold dump, range. unfold_bind. rewrite dump_loop_run, length_seq.
  cbn [port log emit app]. unfold write_bytes, emit. cbn [port log].
  by rewrite <- !app_assoc.
Qed.

Lemma main_run (args : Args) (read_bytes : string -> list byte) (w : world Ser) :
  main args read_bytes w
  = match CartridgeHeader_init (answer w) with
    | Raise e => (Raise e, handshake w)
    | Ok header =>
        if negb (truthy (dumprom args)) && negb (truthy (dumpram args))
           && negb (truthy (flashram args))
        then (Ok tt, handshake w)
        else (when_given (dumprom args) (main_dumprom header) ≫= λ _,
              when_given (dumpram args) (main_dumpram header) ≫= λ _,
              when_given (flashram args) (main_flashram read_bytes header))
               (handshake w)
    end.
Proof.
  unfold main, answer, handshake. unfold_bind. unfold write at 1.
  destruct (ser_write [xca; x00] (port w)) as [written p1]. cbn [fst snd].
  unfold read at 1, emit. cbn [port log].
  destruct (ser_read 80 p1) as [hdrdata p2]. cbn [fst snd].
  rewrite <- app_assoc. cbn [app]. unfold eval.
  destruct (CartridgeHeader_init hdrdata) as [header|e]; [|reflexivity].
  by destruct (negb _ && negb _ && negb _).
Qed.

(** What any run of [flash] leaves in the log, and how it can end. *)
Lemma flash_summary (data : list byte) (num_banks : Z) (w : world Ser) :
  exists t,
    log (flash data num_banks w).2 = log w ++ t
    /\ ops t `prefix_of` flash_ops (Z.to_nat num_banks)
    /\ sent_bytes t `prefix_of` data
    /\ ((flash data num_banks w).1 = Ok tt
        \/ (flash data num_banks w).1 = Raise AssertionError).
Proof.
  destruct (flash_outcome data num_banks w) as (t & Hlog & Hout).
  destruct (flash_sent data num_banks w) as (t' & Hlog' & Hsent).
  assert (t' = t) as -> by (rewrite Hlog in Hlog'; by apply app_inv_head in Hlog').
  exists t. split; [exact Hlog|].
  destruct (flash data num_banks w).1 as [[]|e]; cbn [outcome] in Hout.
  - destruct Hout as [-> _]. split; [reflexivity|]. split; [exact Hsent | by left].
  - destruct Hout as (-> & before & (i & k & Hi & Hk & ->) & Hab).
    destruct Hab as (t0 & sent & written & -> & _ & Hops & _).
    split; [|split; [exact Hsent | by right]].
    unfold ops in *. rewrite fmap_app, Hops. cbn [fmap list_fmap op_of].
    by apply aborted_ops_prefix.
Qed.

(** [exit(0)] changes nothing: with no option given the three phases do
    nothing anyway. *)
Lemma main_run_phases (args : Args) (read_bytes : string -> list byte)
      (w : world Ser) :
  main args read_bytes w
  = match CartridgeHeader_init (answer w) with
    | Raise e => (Raise e, handshake w)
    | Ok header =>
        (when_given (dumprom args) (main_dumprom header) ≫= λ _,
         when_given (dumpram args) (main_dumpram header) ≫= λ _,
         when_given (flashram args) (main_flashram read_bytes header))
          (handshake w)
    end.
Proof.
  rewrite main_run. destruct (CartridgeHeader_init (answer w)) as [header|e];
    [|reflexivity].
  unfold_bind. rewrite !when_given_run.
  destruct (truthy (dumprom args)); [reflexivity|].
  rewrite !when_given_run.
  destruct (truthy (dumpram args)); [reflexivity|].
  rewrite !when_given_run.
  by destruct (truthy (flashram args)).
Qed.

Lemma main_dump_phase (cmd : list byte) (arg : option string)
      (default_name : string) (n : Z) (w : world Ser) :
  exists t w',
    when_given arg
      (fun s => write cmd ≫= λ _,
                dump (if String.eqb s "c" then default_name else s) n) w
    = (Ok tt, w')
    /\ log w' = log w ++ t
    /\ dump_phase cmd arg default_name n t.
Proof.
  rewrite when_given_run. unfold dump_phase.
  destruct (truthy arg).
  - rewrite command_dump_run. eexists. eexists.
    split; [reflexivity|]. split; [reflexivity|].
    eexists. eexists. split; [reflexivity | apply ser_reads_length].
  - exists [], w. split; [reflexivity|]. split; [|reflexivity].
    symmetry. apply app_nil_r.
Qed.

Lemma main_flash_phase (read_bytes : string -> list byte)
      (header : CartridgeHeader) (arg : option string) (w : world Ser) :
  exists t,
    log (when_given arg (main_flashram read_bytes header) w).2 = log w ++ t
    /\ flash_phase arg (read_bytes (default ""%string arg))
                   (Main.flashram_num_blocks header) t
    /\ ((when_given arg (main_flashram read_bytes header) w).1 = Ok tt
        \/ ((when_given arg (main_flashram read_bytes header) w).1
            = Raise AssertionError
            /\ truthy arg = true)).
Proof.
  rewrite when_given_run. unfold flash_phase.
  destruct (truthy arg).
  - unfold main_flashram. cbv zeta. unfold_bind. unfold write at 1 2 3.
    destruct (ser_write [xca; x04] (port w)) as [written p1].
    fold (Main.flashram_num_blocks header).
    set (w1 := emit (EvWrite [xca; x04] written) w p1).
    destruct (flash_summary (read_bytes (default ""%string arg))
                            (Main.flashram_num_blocks header) w1)
      as (t' & Hlog & Hops & Hsent & Hres).
    exists (EvWrite [xca; x04] written :: t'). split.
    + rewrite Hlog. unfold w1, emit. cbn [log]. by rewrite <- app_assoc.
    + split; [by exists written, t'|].
      destruct Hres as [Hres|Hres]; [by left | by right].
  - exists []. split; [symmetry; apply app_nil_r|]. split; [reflexivity | by left].
Qed.

(** The log of a run of [main] whose header was built: the handshake, then
    the ROM dump, the RAM dump and the flash, each only if asked for. *)
Lemma main_trace (args : Args) (read_bytes : string -> list byte)
      (w : world Ser) (header : CartridgeHeader) :
  CartridgeHeader_init (answer w) = Ok header ->
  exists t1 t2 t3,
    log (main args read_bytes w).2 = log (handshake w) ++ t1 ++ t2 ++ t3
    /\ dump_phase [xca; x01] (dumprom args)
                  (String.append (title header) ".rom")
                  (Main.dumprom_num_blocks header) t1
    /\ dump_phase [xca; x02] (dumpram args)
                  (String.append (title header) ".ram")
                  (Main.dumpram_num_blocks header) t2
    /\ flash_phase (flashram args)
                   (read_bytes (default ""%string (flashram args)))
                   (Main.flashram_num_blocks header) t3
    /\ ((main args read_bytes w).1 = Ok tt
        \/ ((main args read_bytes w).1 = Raise AssertionError
            /\ truthy (flashram args) = true)).
Proof.
  intros Hinit. rewrite main_run_phases, Hinit. unfold_bind.
  destruct (main_dump_phase [xca; x01] (dumprom args)
              (String.append (title header) ".rom")
              (Main.dumprom_num_blocks header) (handshake w))
    as (t1 & w1 & Hrun1 & Hlog1 & Hphase1).
  change (when_given (dumprom args) (main_dumprom header) (handshake w))
    with (when_given (dumprom args)
            (fun s => write [xca; x01] ≫= λ _,
                      dump (if String.eqb s "c"
                            then String.append (title header) ".rom" else s)
                           (Main.dumprom_num_blocks header)) (handshake w)).
  rewrite Hrun1.
  destruct (main_dump_phase [xca; x02] (dumpram args)
              (String.append (title header) ".ram")
              (Main.dumpram_num_blocks header) w1)
    as (t2 & w2 & Hrun2 & Hlog2 & Hphase2).
  change (when_given (dumpram args) (main_dumpram header) w1)
    with (when_given (dumpram args)
            (fun s => write [xca; x02] ≫= λ _,
                      dump (if String.eqb s "c"
                            then String.append (title header) ".ram" else s)
                           (Main.dumpram_num_blocks header)) w1).
  rewrite Hrun2.
  destruct (main_flash_phase read_bytes header (flashram args) w2)
    as (t3 & Hlog3 & Hphase3 & Hres).
  exists t1, t2, t3.
  split; [by rewrite Hlog3, Hlog2, Hlog1, <- !app_assoc|].
  split; [exact Hphase1|]. split; [exact Hphase2|]. split; [exact Hphase3|].
  set (r := when_given (flashram args) (main_flashram read_bytes header) w2) in *.
  destruct r as [res w3]. exact Hres.
Qed.

(** X12. When the header is built, [main] is the handshake followed by
    three phases in a fixed order, each run only if its option has a
    non-empty value: the command [0xCA 0x01] and [dump] of the ROM blocks,
    which ends normally in a world [w1]; from [w1] the command [0xCA 0x02]
    and [dump] of the RAM blocks, which ends normally in a world [w2]; from
    [w2] the command [0xCA 0x04] and [flash] of the bytes of the file, whose
    result and world are those of [main].  The log is the handshake followed
    by the calls of the three phases, and the run ends normally or on the
    failed [assert] of a flash that was asked for. *)
Theorem main_phases (args : Args) (read_bytes : string -> list byte)
        (w : world Ser) (header : CartridgeHeader) :
  CartridgeHeader_init (answer w) = Ok header ->
  exists t1 t2 t3 w1 w2,
    (if truthy (dumprom args)
     then (write [xca; x01] ≫= λ _,
           dump (dump_file_name (dumprom args)
                                (String.append (title header) ".rom"))
                (Main.dumprom_num_blocks header)) (handshake w)
     else (Ok tt, handshake w)) = (Ok tt, w1)
    /\ (if truthy (dumpram args)
        then (write [xca; x02] ≫= λ _,
              dump (dump_file_name (dumpram args)
                                   (String.append (title header) ".ram"))
                   (Main.dumpram_num_blocks header)) w1
        else (Ok tt, w1)) = (Ok tt, w2)
    /\ main args read_bytes w
       = (if truthy (flashram args)
          then (write [xca; x04] ≫= λ _,
                flash (read_bytes (default ""%string (flashram args)))
                      (Main.flashram_num_blocks header)) w2
          else (Ok tt, w2))
    /\ log w1 = log (handshake w) ++ t1
    /\ log w2 = log w1 ++ t2
    /\ log (main args read_bytes w).2 = log w2 ++ t3
    /\ dump_phase [xca; x01] (dumprom args)
                  (String.append (title header) ".rom")
                  (Main.dumprom_num_blocks header) t1
    /\ dump_phase [xca; x02] (dumpram args)
                  (String.append (title header) ".ram")
                  (Main.dumpram_num_blocks header) t2
    /\ flash_phase (flashram args)
                   (read_bytes (default ""%string (flashram args)))
                   (Main.flashram_num_blocks header) t3
    /\ ((main args read_bytes w).1 = Ok tt
        \/ ((main args read_bytes w).1 = Raise AssertionError
            /\ truthy (flashram args) = true)).
Proof.
  intros Hinit. rewrite main_run_phases, Hinit. unfold_bind.
  destruct (main_dump_phase [xca; x01] (dumprom args)
              (String.append (title header) ".rom")
              (Main.dumprom_num_blocks header) (handshake w))
    as (t1 & w1 & Hrun1 & Hlog1 & Hphase1).
  change (when_given (dumprom args) (main_dumprom header) (handshake w))
    with (when_given (dumprom args)
            (fun s => write [xca; x01] ≫= λ _,
                      dump (if String.eqb s "c"
                            then String.append (title header) ".rom" else s)
                           (Main.dumprom_num_blocks header)) (handshake w)).
  rewrite Hrun1.
  destruct (main_dump_phase [xca; x02] (dumpram args)
              (String.append (title header) ".ram")
              (Main.dumpram_num_blocks header) w1)
    as (t2 & w2 & Hrun2 & Hlog2 & Hphase2).
  change (when_given (dumpram args) (main_dumpram header) w1)
    with (when_given (dumpram args)
            (fun s => write [xca; x02] ≫= λ _,
                      dump (if String.eqb s "c"
                            then String.append (title header) ".ram" else s)
                           (Main.dumpram_num_blocks header)) w1).
  rewrite Hrun2.
  destruct (main_flash_phase read_bytes header (flashram args) w2)
    as (t3 & Hlog3 & Hphase3 & Hres).
  rewrite when_given_run in Hrun1, Hrun2.
  exists t1, t2, t3, w1, w2.
  split; [exact Hrun1|]. split; [exact Hrun2|].
  split; [by rewrite when_given_run|].
  split; [exact Hlog1|]. split; [exact Hlog2|]. split; [exact Hlog3|].
  split; [exact Hphase1|]. split; [exact Hphase2|]. split; [exact Hphase3|].
  exact Hres.
Qed.

(** X13. [main] can fail in two ways only.  Either the header cannot be
    built from the answer to the handshake: the exception is [IndexError] or
    [UnicodeDecodeError] and the run stops right after the handshake, no
    command sent and no file written.  Or the header was built, a flash was
    asked for and its [assert] failed.  Dumps never fail. *)
Theorem main_failures (args : Args) (read_bytes : string -> list byte)
        (w : world Ser) (e : exn) :
  (main args read_bytes w).1 = Raise e ->
  (CartridgeHeader_init (answer w) = Raise e
   /\ (e = IndexError \/ e = UnicodeDecodeError)
   /\ (main args read_bytes w).2 = handshake w)
  \/ (e = AssertionError
      /\ truthy (flashram args) = true
      /\ is_ok (CartridgeHeader_init (answer w)) = true).
Proof.
  intros Hfail.
  destruct (CartridgeHeader_init (answer w)) as [header|e0] eqn:Hinit.
  - right. destruct (main_trace args read_bytes w header Hinit)
      as (_ & _ & _ & _ & _ & _ & _ & [Hok|[Hraise Hflag]]); [congruence|].
    rewrite Hraise in Hfail. injection Hfail as <-. by split.
  - left. rewrite main_run_phases, Hinit in Hfail |- *. cbn [fst snd] in *.
    injection Hfail as ->. split; [reflexivity|]. split; [|reflexivity].
    by apply (init_Raise (answer w)).
Qed.

(** X14. With no option given, or only options whose value is the empty
    string, [main] makes the handshake and nothing else: it ends normally if
    the header is built, and with the exception of the header otherwise. *)
Theorem main_no_option (args : Args) (read_bytes : string -> list byte)
        (w : world Ser) :
  truthy (dumprom args) = false ->
  truthy (dumpram args) = false ->
  truthy (flashram args) = false ->
  main args read_bytes w
  = (match CartridgeHeader_init (answer w) with
     | Ok _ => Ok tt
     | Raise e => Raise e
     end, handshake w).
Proof.
  intros Hrom Hram Hflash. rewrite main_run, Hrom, Hram, Hflash.
  by destruct (CartridgeHeader_init (answer w)).
Qed.

Lemma ser_reads_blocking (n : nat) (p : Ser) :
  blocking Ser ->
  Forall (fun block => length block = 512%nat) (ser_reads n p).1.
Proof.
  intros Hblock. revert p. induction n as [|n IH]; intros p; [constructor|].
  cbn [ser_reads]. pose proof (Hblock 512%nat p) as Hlen.
  destruct (ser_read 512 p) as [block p1]. specialize (IH p1).
  destruct (ser_reads n p1) as [blocks p2]. cbn [fst] in *. by constructor.
Qed.

(** X15. With a transport whose reads return as many bytes as asked for, a
    run of [main] with [--dumprom] alone, on a header that is built, ends
    normally after the handshake, the command [0xCA 0x01], the reads of 512
    bytes and one file write; the file holds exactly [32768 * 2 ^ rom_size]
    bytes and is named by the option, or [title + ".rom"] when the option's
    value is ["c"]. *)
Theorem main_dumprom_size (args : Args) (read_bytes : string -> list byte)
        (w : world Ser) (header : CartridgeHeader) :
  blocking Ser ->
  CartridgeHeader_init (answer w) = Ok header ->
  truthy (dumprom args) = true ->
  truthy (dumpram args) = false ->
  truthy (flashram args) = false ->
  exists written blocks,
    (main args read_bytes w).1 = Ok tt
    /\ log (main args read_bytes w).2
       = log (handshake w)
         ++ EvWrite [xca; x01] written :: (EvRead 512 <$> blocks)
         ++ [EvWriteBytes
               (dump_file_name (dumprom args)
                               (String.append (title header) ".rom"))
               (concat blocks)]
    /\ Z.of_nat (length (concat blocks)) = 32768 * 2 ^ rom_size header.
Proof.
  intros Hblock Hinit Hrom Hram Hflash.
  rewrite main_run_phases, Hinit. unfold_bind.
  rewrite !when_given_run, Hrom. unfold main_dumprom at 1 2. cbv zeta.
  rewrite command_dump_run. rewrite !when_given_run, Hram.
  rewrite !when_given_run, Hflash. cbn [fst snd log].
  eexists. eexists. split; [reflexivity|]. split; [reflexivity|].
  rewrite (concat_length_uniform 512) by (by apply ser_reads_blocking).
  rewrite ser_reads_length.
  apply init_Ok in Hinit as (_ & _ & _ & _ & Hcode & _).
  apply getitem_range in Hcode.
  rewrite Z.shiftl_mul_pow2 by lia.
  assert (0 < 2 ^ rom_size header) by (apply Z.pow_pos_nonneg; lia).
  lia.
Qed.

End MainRuns.

(** ** The files [main] writes *)

Lemma string_append_length (a b : string) :
  String.length (String.append a b) = (String.length a + String.length b)%nat.
Proof.
  induction a as [|c a IH]; [reflexivity|].
  change (String.length (String.append (String c a) b))
    with (S (String.length (String.append a b))).
  rewrite IH. reflexivity.
Qed.

Lemma dump_file_name_proper (arg : option string) (title_ : string) (ext : string) :
  truthy arg = true ->
  (2 <= String.length ext)%nat ->
  dump_file_name arg (String.append title_ ext) <> ""%string
  /\ dump_file_name arg (String.append title_ ext) <> "c"%string.
Proof.
  intros Harg Hext.
  assert (Hdefault : forall s, (String.length s <= 1)%nat ->
                               String.append title_ ext <> s).
  { intros s Hs Heq. apply (f_equal String.length) in Heq.
    rewrite string_append_length in Heq. lia. }
  destruct arg as [s|]; [|discriminate]. unfold dump_file_name.
  change (default ""%string (Some s)) with s.
  destruct (String.eqb_spec s "c") as [->|Hc].
  - split; apply Hdefault; cbn; lia.
  - split; [|exact Hc]. intros ->. discriminate.
Qed.

Lemma flash_ops_no_file (n : nat) : OpFile ∉ flash_ops n.
Proof.
  assert (Hchunks : forall k, OpFile ∉ chunk_ops k).
  { induction k as [|k IH]; [apply not_elem_of_nil|].
    change (chunk_ops (S k)) with ([OpWrite; OpRead 1] ++ chunk_ops k).
    rewrite elem_of_app. intros [Hin|Hin]; [|by apply IH].
    apply elem_of_cons in Hin as [?|Hin]; [done|].
    apply elem_of_cons in Hin as [?|Hin]; [done|]. by apply elem_of_nil in Hin. }
  induction n as [|n IH]; [apply not_elem_of_nil|].
  change (flash_ops (S n)) with (bank_ops ++ flash_ops n). unfold bank_ops.
  rewrite !elem_of_app. intros [[Hin|Hin]|Hin]; [by apply (Hchunks 256%nat) | | by apply IH].
  apply elem_of_cons in Hin as [?|Hin]; [done|]. by apply elem_of_nil in Hin.
Qed.

Lemma dump_phase_files (cmd : list byte) (arg : option string)
      (title_ ext : string) (n : Z) (t : list event)
      (path : string) (content : list byte) :
  (2 <= String.length ext)%nat ->
  dump_phase cmd arg (String.append title_ ext) n t ->
  EvWriteBytes path content ∈ t ->
  path <> ""%string /\ path <> "c"%string.
Proof.
  intros Hext Hphase Hin. unfold dump_phase in Hphase.
  destruct (truthy arg) eqn:Harg; [|subst t; by apply elem_of_nil in Hin].
  destruct Hphase as (written & blocks & -> & _).
  apply elem_of_cons in Hin as [?|Hin]; [done|].
  apply elem_of_app in Hin as [Hin|Hin].
  - apply list_elem_of_fmap in Hin as (block & ? & _). done.
  - apply elem_of_cons in Hin as [Heq|Hin]; [|by apply elem_of_nil in Hin].
    injection Heq as -> _. by apply dump_file_name_proper.
Qed.

Section MainFiles.
Context {Ser : Type} `{Transport Ser}.

(** X16. Every file a run of [main] writes has a name that is neither empty
    nor ["c"]: the value ["c"] of a dump option always stands for the default
    name, the title followed by [".rom"] or [".ram"]; and a flash writes no
    file. *)
Theorem main_file_names (args : Args) (read_bytes : string -> list byte)
        (w : world Ser) (t : list event) (path : string) (content : list byte) :
  log (main args read_bytes w).2 = log (handshake w) ++ t ->
  EvWriteBytes path content ∈ t ->
  path <> ""%string /\ path <> "c"%string.
Proof.
  intros Hlog Hin.
  destruct (CartridgeHeader_init (answer w)) as [header|e] eqn:Hinit.
  - destruct (main_trace args read_bytes w header Hinit)
      as (t1 & t2 & t3 & Hlog' & Hphase1 & Hphase2 & Hphase3 & _).
    rewrite Hlog in Hlog'. apply app_inv_head in Hlog'. subst t.
    rewrite !elem_of_app in Hin. destruct Hin as [Hin|[Hin|Hin]].
    + eapply dump_phase_files; [|exact Hphase1|exact Hin]. cbn. lia.
    + eapply dump_phase_files; [|exact Hphase2|exact Hin]. cbn. lia.
    + exfalso. unfold flash_phase in Hphase3.
      destruct (truthy (flashram args)); [|subst t3; by apply elem_of_nil in Hin].
      destruct Hphase3 as (written & t' & -> & [rest Hrest] & _).
      apply elem_of_cons in Hin as [?|Hin]; [done|].
      apply (flash_ops_no_file (Z.to_nat (Main.flashram_num_blocks header))).
      rewrite Hrest. apply elem_of_app. left.
      change OpFile with (op_of (EvWriteBytes path content)).
      by apply list_elem_of_fmap_2.
  - exfalso. rewrite main_run_phases, Hinit in Hlog. cbn [snd] in Hlog.
    rewrite <- (app_nil_r (log (handshake w))) in Hlog at 1.
    apply app_inv_head in Hlog. subst t. by apply elem_of_nil in Hin.
Qed.

End MainFiles.

(** ** Runs of [main] against the zero device and the mock transport *)

Lemma main_phases_witness :
  exists t3 w2,
    main (mkArgs None None (Some "zelda.sav"%string))
         (fun _ => replicate 0x2000 x2a) (mkWorld (mkMock hdr_zelda [] 32) [])
    = (if truthy (Some "zelda.sav"%string)
       then (write [xca; x04] ≫= λ _, flash (replicate 0x2000 x2a) 1) w2
       else (Ok tt, w2))
    /\ w2 = handshake (mkWorld (mkMock hdr_zelda [] 32) [])
    /\ log (main (mkArgs None None (Some "zelda.sav"%string))
                 (fun _ => replicate 0x2000 x2a)
                 (mkWorld (mkMock hdr_zelda [] 32) [])).2
       = log w2 ++ t3
    /\ flash_phase (Some "zelda.sav"%string) (replicate 0x2000 x2a) 1 t3.
Proof.
  pose (header := mkCartridgeHeader hdr_zelda (replicate 48 x00) "ZELDA" 3 5 2 109).
  assert (Hinit : CartridgeHeader_init (answer (mkWorld (mkMock hdr_zelda [] 32) []))
                  = Ok header) by reflexivity.
  destruct (main_phases (mkArgs None None (Some "zelda.sav"%string))
                        (fun _ => replicate 0x2000 x2a)
                        (mkWorld (mkMock hdr_zelda [] 32) []) header Hinit)
    as (t1 & t2 & t3 & w1 & w2 & Hrun1 & Hrun2 & Hmain & _ & _ & Hlog3
        & _ & _ & Hphase3 & _).
  exists t3, w2. split; [exact Hmain|]. split; [|split; [exact Hlog3 | exact Hphase3]].
  injection Hrun1 as <-. injection Hrun2 as <-. reflexivity.
Defined.

Lemma main_failures_witness :
  (main (mkArgs (Some "c"%string) None None) (fun _ => [])
        (mkWorld (mkMock [] [] 32) [])).2
  = handshake (mkWorld (mkMock [] [] 32) []).
Proof.
  assert (Hfail : (main (mkArgs (Some "c"%string) None None) (fun _ => [])
                        (mkWorld (mkMock [] [] 32) [])).1 = Raise IndexError)
    by reflexivity.
  destruct (main_failures _ _ _ _ Hfail) as [(_ & _ & Hstop)|(Habs & _)].
  - exact Hstop.
  - discriminate Habs.
Defined.

Lemma main_no_option_witness :
  main (mkArgs (Some ""%string) None (Some ""%string)) (fun _ => [])
       (mkWorld tt [])
  = (Ok tt, mkWorld tt [EvWrite [xca; x00] 2; EvRead 80 (replicate 80 x00)]).
Proof.
  rewrite (main_no_option (mkArgs (Some ""%string) None (Some ""%string))
                          (fun _ => []) (mkWorld tt [])
                          eq_refl eq_refl eq_refl).
  reflexivity.
Defined.

Lemma main_dumprom_size_witness :
  exists written blocks,
    log (main (mkArgs (Some "c"%string) None None) (fun _ => [])
              (mkWorld tt [])).2
    = log (handshake (mkWorld tt []))
      ++ EvWrite [xca; x01] written :: (EvRead 512 <$> blocks)
      ++ [EvWriteBytes ".rom" (concat blocks)]
    /\ Z.of_nat (length (concat blocks)) = 32768.
Proof.
  pose (header := mkCartridgeHeader (replicate 80 x00) (replicate 48 x00) "" 0 0 0 0).
  assert (Hinit : CartridgeHeader_init (answer (mkWorld tt [])) = Ok header)
    by reflexivity.
  destruct (main_dumprom_size (mkArgs (Some "c"%string) None None) (fun _ => [])
                              (mkWorld tt []) header zero_device_blocking
                              Hinit eq_refl eq_refl eq_refl)
    as (written & blocks & _ & Hlog & Hsize).
  exists written, blocks. split; [exact Hlog | exact Hsize].
Defined.

Lemma main_file_names_witness :
  ".ram"%string <> ""%string /\ ".ram"%string <> "c"%string.
Proof.
  pose (w := mkWorld tt []).
  assert (Hlog : log (main (mkArgs None (Some "c"%string) None) (fun _ => []) w).2
                 = log (handshake w)
                   ++ [EvWrite [xca; x02] 2; EvWriteBytes ".ram" []])
    by reflexivity.
  apply (main_file_names _ _ _ _ ".ram"%string [] Hlog).
  apply elem_of_cons. right. apply elem_of_cons. by left.
Defined.

Lemma ram_dump_can_be_flashed_witness :
  Z.of_nat (length (concat (ser_reads 16 tt).1)) = 8192
  /\ is_ok (flash (concat (ser_reads 16 tt).1) 1 (mkWorld tt [])).1 = true.
Proof.
  exact (ram_dump_can_be_flashed
           (mkCartridgeHeader hdr_zelda (replicate 48 x00) "ZELDA" 3 5 2 109)
           tt (mkWorld tt []) zero_device_blocking zero_device_accepting).
Defined.

(** * [flash] on data shorter than the banks asked for: where it stops *)

Lemma writes_app (t1 t2 : list event) : writes (t1 ++ t2) = writes t1 ++ writes t2.
Proof. unfold writes. apply omap_app. Qed.

Lemma chunk_at_length (data : list byte) (m : nat) :
  length (chunk_at data m) = (32 `min` (length data - 32 * m))%nat.
Proof. unfold chunk_at. by rewrite length_take, length_drop. Qed.

(** The first [q] chunks of [data], put end to end, are its first [32 * q]
    bytes. *)
Lemma concat_chunks (data : list byte) (q : nat) :
  concat (chunk_at data <$> seq 0 q) = take (32 * q) data.
Proof.
  induction q as [|q IH]; [by rewrite Nat.mul_0_r, take_0|].
  rewrite seq_S, fmap_app, concat_app, IH. cbn [fmap list_fmap concat Nat.add].
  rewrite app_nil_r. unfold chunk_at. rewrite take_take_drop. f_equal. lia.
Qed.

(** A chunk of a bank is a chunk of the data the bank was sliced from. *)
Lemma chunk_at_bank (data : list byte) (i m : nat) :
  (m < 256)%nat ->
  chunk_at (take 0x2000 (drop (i * 0x2000) data)) m = chunk_at data (i * 256 + m).
Proof.
  intros Hm. unfold chunk_at.
  replace 0x2000%nat with (32 * m + (0x2000 - 32 * m))%nat at 1 by lia.
  rewrite <- take_drop_commute, take_take, drop_drop. f_equal; [lia|].
  f_equal. lia.
Qed.

(** Writes that were taken whole by a faithful transport carried at least
    32 bytes. *)
Lemma writes_full (t : list event) :
  Forall accepted t -> Forall faithful t ->
  Forall (fun sent => (32 <= length sent)%nat) (writes t).
Proof.
  induction t as [|ev t IH]; intros Hacc Hf; [constructor|].
  apply Forall_cons in Hacc as [Hacc1 Hacc]. apply Forall_cons in Hf as [Hf1 Hf].
  specialize (IH Hacc Hf). destruct ev as [size got|sent written|path content];
    cbn [writes omap list_omap]; try exact IH.
  constructor; [|exact IH]. cbn in Hacc1, Hf1. lia.
Qed.

Section ShortData.
Context {Ser : Type} `{Transport Ser}.

Lemma flash_chunk_events (bank : list byte) (j : nat) (w : world Ser) :
  honest Ser -> accepting Ser ->
  exists t r,
    log (flash_chunk bank j w).2 = log w ++ t
    /\ writes t = chunk_at bank <$> seq (j * 1) r
    /\ Forall faithful t
    /\ (r <= 1)%nat
    /\ (is_ok (flash_chunk bank j w).1 = true -> r = 1%nat).
Proof.
  intros Hhonest Hacc. rewrite flash_chunk_run. cbv zeta. rewrite slice_chunk.
  replace (j * 32)%nat with (32 * j)%nat by lia. fold (chunk_at bank j).
  assert (Hf : faithful (EvWrite (chunk_at bank j)
                                 (ser_write (chunk_at bank j) (port w)).1)).
  { split; [apply Hhonest | apply Hacc]. }
  replace (j * 1)%nat with j by lia.
  destruct (_ =? 32); eexists; exists 1%nat;
    (split; [reflexivity|]); (split; [reflexivity|]);
    (split; [|by split]);
    repeat first [apply Forall_nil | apply Forall_cons; split];
    first [exact Hf | exact I].
Qed.

(** A loop over consecutive groups of [c] chunks writes consecutive
    chunks. *)
Lemma for_events (c : nat) (body : nat -> io Ser unit) (g : nat -> list byte) :
  (forall x w, exists t r,
      log (body x w).2 = log w ++ t
      /\ writes t = g <$> seq (x * c) r
      /\ Forall faithful t
      /\ (r <= c)%nat
      /\ (is_ok (body x w).1 = true -> r = c)) ->
  forall k j0 w, exists t r,
    log (for_ (seq j0 k) body w).2 = log w ++ t
    /\ writes t = g <$> seq (j0 * c) r
    /\ Forall faithful t
    /\ (r <= k * c)%nat
    /\ (is_ok (for_ (seq j0 k) body w).1 = true -> r = (k * c)%nat).
Proof.
  intros Hbody k. induction k as [|k IH]; intros j0 w.
  - exists [], 0%nat. split; [symmetry; apply app_nil_r|].
    split; [reflexivity|]. split; [constructor|]. by split.
  - cbn [seq]. rewrite for_cons.
    destruct (Hbody j0 w) as (t1 & r1 & Hlog1 & Hw1 & Hf1 & Hr1 & Hok1).
    destruct (body j0 w) as [[[]|e] w1]; cbn [fst snd is_ok] in *.
    + destruct (IH (S j0) w1) as (t2 & r2 & Hlog2 & Hw2 & Hf2 & Hr2 & Hok2).
      exists (t1 ++ t2), (c + r2)%nat.
      split; [by rewrite Hlog2, Hlog1, app_assoc|]. split.
      * rewrite writes_app, Hw1, Hw2, (Hok1 eq_refl).
        rewrite seq_app, fmap_app. do 3 f_equal. lia.
      * split; [by apply Forall_app|]. split; [lia|].
        intros Hok. rewrite (Hok2 Hok). lia.
    + exists t1, r1. split; [exact Hlog1|]. split; [exact Hw1|].
      split; [exact Hf1|]. split; [lia | discriminate].
Qed.

Lemma flash_bank_events (data : list byte) (i : nat) (w : world Ser) :
  honest Ser -> accepting Ser ->
  exists t r,
    log (flash_bank data i w).2 = log w ++ t
    /\ writes t = chunk_at data <$> seq (i * 256) r
    /\ Forall faithful t
    /\ (r <= 256)%nat
    /\ (is_ok (flash_bank data i w).1 = true -> r = 256%nat).
Proof.
  intros Hhonest Hacc. unfold flash_bank. rewrite slice_chunk.
  set (bank := take 0x2000 (drop (i * 0x2000) data)).
  destruct (for_events 1 (flash_chunk bank) (chunk_at bank)
              (fun j w' => flash_chunk_events bank j w' Hhonest Hacc) 256 0%nat w)
    as (t1 & r & Hlog1 & Hw1 & Hf1 & Hr & Hok1).
  assert (Hw : writes t1 = chunk_at data <$> seq (i * 256) r).
  { rewrite Hw1. change (0 * 1)%nat with 0%nat.
    replace (seq (i * 256) r) with (Nat.add (i * 256) <$> seq 0 r)
      by (rewrite fmap_add_seq; f_equal; lia).
    rewrite <- list_fmap_compose. apply list_fmap_ext.
    intros n m Hm. apply list_elem_of_lookup_2, elem_of_seq in Hm.
    unfold compose. apply chunk_at_bank. lia. }
  unfold_bind.
  destruct (for_ (seq 0 256) (flash_chunk bank) w) as [[[]|e] w1];
    cbn [fst snd is_ok] in *.
  - unfold read. destruct (ser_read 1 (port w1)) as [got p2].
    cbn [fst snd emit log is_ok].
    exists (t1 ++ [EvRead 1 got]), r.
    split; [by rewrite Hlog1, app_assoc|]. split.
    + rewrite writes_app, Hw. apply app_nil_r.
    + split; [apply Forall_app; split; [exact Hf1 | by repeat constructor]|].
      split; [lia|]. intros _. rewrite (Hok1 eq_refl). reflexivity.
  - exists t1, r. split; [exact Hlog1|]. split; [exact Hw|].
    split; [exact Hf1|]. split; [lia | discriminate].
Qed.

(** With a faithful transport, the writes of a run of [flash] are the
    chunks of [data], from the first one on. *)
Lemma flash_events (data : list byte) (num_banks : Z) (w : world Ser) :
  honest Ser -> accepting Ser ->
  exists t r,
    log (flash data num_banks w).2 = log w ++ t
    /\ writes t = chunk_at data <$> seq 0 r
    /\ Forall faithful t.
Proof.
  intros Hhonest Hacc. unfold flash, range.
  destruct (for_events 256 (flash_bank data) (chunk_at data)
              (fun i w' => flash_bank_events data i w' Hhonest Hacc)
              (Z.to_nat num_banks) 0%nat w)
    as (t & r & Hlog & Hw & Hf & _).
  by exists t, r.
Qed.

(** C5, amended. With [data] shorter than [num_banks] banks of 0x2000 bytes
    and a transport that takes a chunk of 32 bytes whole and never reports
    more bytes than it is given, [flash] slices what remains and never pads:
    it writes every full chunk of 32 bytes of [data], in order and each one
    taken whole, and then the bytes that remain, fewer than 32, as one more
    chunk; so the bytes of [data], and nothing else, are sent.  That chunk
    is the first one shorter than 32 bytes: the transport reports fewer than
    32 bytes for it, the [assert] fails, and the run ends there, this write
    being the last call made.  A short last bank is an error, not a case
    that is handled. *)
Theorem flash_short_data_fails (data : list byte) (num_banks : Z) (w : world Ser) :
  honest Ser -> accepting Ser ->
  (length data < Z.to_nat num_banks * 0x2000)%nat ->
  exists t0 written,
    (flash data num_banks w).1 = Raise AssertionError
    /\ log (flash data num_banks w).2
       = log w ++ t0 ++ [EvWrite (drop (32 * (length data / 32)) data) written]
    /\ written < 32
    /\ (length (drop (32 * (length data / 32)) data) < 32)%nat
    /\ Forall accepted t0
    /\ writes t0 = chunk_at data <$> seq 0 (length data / 32)
    /\ Forall (fun sent => length sent = 32%nat) (writes t0)
    /\ sent_bytes (t0 ++ [EvWrite (drop (32 * (length data / 32)) data) written])
       = data.
Proof.
  intros Hhonest Hacc Hshort.
  destruct (flash_outcome data num_banks w) as (t & Hlog & Hout).
  destruct (flash_events data num_banks w Hhonest Hacc) as (t' & r & Hlog' & Hw & Hf).
  assert (t' = t) as -> by (rewrite Hlog in Hlog'; by apply app_inv_head in Hlog').
  clear Hlog'.
  destruct (flash data num_banks w).1 as [[]|e] eqn:Hres; cbn [outcome] in Hout.
  { exfalso.
    assert (Hok : is_ok (for_ (range num_banks) (flash_bank data) w).1 = true).
    { unfold flash in Hres. by rewrite Hres. }
    destruct (for_Ok_body _ _ _ Hok (Z.to_nat num_banks - 1)%nat) as [w1 Hlast].
    { unfold range. apply elem_of_seq. lia. }
    apply (flash_bank_Ok_full _ _ _ Hhonest) in Hlast. lia. }
  destruct Hout as (-> & before & _ & (t0 & sent & written & -> & Hne & _ & Hacc0)).
  rewrite writes_app in Hw. change (writes [EvWrite sent written]) with [sent] in Hw.
  apply Forall_app in Hf as [Hf0 Hfl]. apply Forall_cons in Hfl as [[Hle Hwhole] _].
  destruct r as [|W]; [by destruct (writes t0)|].
  rewrite seq_S, fmap_app in Hw. change (chunk_at data <$> [(0 + W)%nat])
    with [chunk_at data W] in Hw.
  apply app_inj_tail in Hw as [Hw0 Hsent].
  pose proof (writes_full t0 Hacc0 Hf0) as Hfull0. rewrite Hw0 in Hfull0.
  rewrite Forall_fmap, Forall_forall in Hfull0.
  assert (Hchunks : forall m, (m < W)%nat -> length (chunk_at data m) = 32%nat).
  { intros m Hm. specialize (Hfull0 m). unfold compose in Hfull0.
    rewrite chunk_at_length in Hfull0 |- *.
    assert (m ∈ seq 0 W) as Hin by (apply elem_of_seq; lia).
    specialize (Hfull0 Hin). lia. }
  assert (HWle : (32 * W <= length data)%nat).
  { destruct W as [|W']; [lia|]. specialize (Hchunks W' ltac:(lia)).
    rewrite chunk_at_length in Hchunks. lia. }
  assert (Hlt : (length data < 32 * W + 32)%nat).
  { destruct (decide (length sent = 32%nat)) as [H32|H32];
      [by specialize (Hwhole H32)|].
    rewrite Hsent, chunk_at_length in H32. lia. }
  assert (Hq : (length data / 32)%nat = W).
  { symmetry. apply (Nat.div_unique _ _ _ (length data - 32 * W)); lia. }
  rewrite Hq.
  assert (Hrest : sent = drop (32 * W) data).
  { rewrite Hsent. unfold chunk_at. apply take_ge. rewrite length_drop. lia. }
  assert (Hrestlen : (length (drop (32 * W) data) < 32)%nat)
    by (rewrite length_drop; lia).
  subst sent. rewrite Hrest in *.
  exists t0, written. split; [reflexivity|]. split; [exact Hlog|].
  split; [lia|]. split; [exact Hrestlen|]. split; [exact Hacc0|].
  split; [exact Hw0|]. split.
  - rewrite Hw0, Forall_fmap, Forall_forall. intros m Hm.
    apply elem_of_seq in Hm. unfold compose. apply Hchunks. lia.
  - rewrite sent_bytes_app. change (sent_bytes t0) with (concat (writes t0)).
    rewrite Hw0, concat_chunks.
    change (sent_bytes [EvWrite (drop (32 * W) data) written])
      with (drop (32 * W) data ++ []).
    rewrite app_nil_r. apply take_drop.
Qed.

End ShortData.

Lemma flash_short_data_fails_witness :
  exists t0 written,
    log (flash (replicate 40 x2a) 1 (mkWorld tt [])).2
    = t0 ++ [EvWrite (replicate 8 x2a) written]
    /\ written < 32
    /\ writes t0 = [replicate 32 x2a].
Proof.
  assert (Hshort : (length (replicate 40 x2a) < Z.to_nat 1 * 0x2000)%nat)
    by (rewrite length_replicate; cbn; lia).
  destruct (flash_short_data_fails (replicate 40 x2a) 1 (mkWorld tt [])
              zero_device_honest zero_device_accepting Hshort)
    as (t0 & written & _ & Hlog & Hlt & _ & _ & Hw & _).
  exists t0, written. split; [exact Hlog|]. split; [exact Hlt | exact Hw].
Defined.
